(** * DeskAgent: the Electron shell of the desktop automation agent

    A shallow embedding of [ui/main.js] (the Electron main process),
    [ui/preload.js] (the IPC bridge) and [ui/renderer.js] (the chat window),
    followed by the properties of the plan pipeline that are decided by this
    code.  The Python backend ([api_wrapper.py], the validator, the executor
    and the audit logger) is a separate program; where a property needs it,
    the relevant contract is modelled in [Module Backend].

    Conventions.  JavaScript numbers are integers ([Z]); strings are byte
    strings; an [async] function is cut at each [await] into the part that
    runs up to the [await] and one continuation per way the awaited promise
    settles; the continuations are events of the state machine. *)

From Stdlib Require Import ZArith Lia Ascii String.
From stdpp Require Import base option list strings sorting pretty.

Set Warnings "-register-all".
Open Scope string_scope.
Open Scope list_scope.

(** ** JavaScript values *)

Module Js.

(** A parsed JSON text: what [JSON.parse] yields and what crosses an IPC
    channel.  Object members keep their order. *)
Inductive json : Type :=
| JNull
| JBool (b : bool)
| JNum (n : Z)
| JStr (s : string)
| JArr (elems : list json)
| JObj (members : list (string * json)).

(** The outcome of code that may [throw]. *)
Inductive completion (A : Type) : Type :=
| Normal (a : A)
| Throw (message : string).
Arguments Normal {A} a.
Arguments Throw {A} message.

(** How a promise settles. *)
Inductive settled (A : Type) : Type :=
| Resolved (a : A)
| Rejected (message : string).
Arguments Resolved {A} a.
Arguments Rejected {A} message.

(** [o[key]] on an association list: the last member of that name wins, as
    in [JSON.parse]. *)
Fixpoint assoc {A : Type} (key : string) (members : list (string * A)) : option A :=
  match members with
  | [] => None
  | (k, v) :: rest =>
      match assoc key rest with
      | Some w => Some w
      | None => if bool_decide (k = key) then Some v else None
      end
  end.

(** [j.key]: a [TypeError] on [null], [undefined] ([None]) on a primitive or
    an array, the member on an object. *)
Definition member (j : json) (key : string) : completion (option json) :=
  match j with
  | JNull => Throw "TypeError: Cannot read properties of null"
  | JObj members => Normal (assoc key members)
  | _ => Normal None
  end.

(** Truthiness of a parsed value. *)
Definition truthy (j : json) : bool :=
  match j with
  | JNull => false
  | JBool b => b
  | JNum n => negb (n =? 0)%Z
  | JStr s => negb (bool_decide (s = ""))
  | JArr _ | JObj _ => true
  end.

(** [x || y] for a parsed value, and for a string, that may be
    [undefined]. *)
Definition or_else (x : option json) (y : json) : json :=
  match x with
  | Some v => if truthy v then v else y
  | None => y
  end.

Definition str_or (x : option string) (y : string) : string :=
  match x with
  | Some s => if bool_decide (s = "") then y else s
  | None => y
  end.

(** *** The heap of the renderer

    Objects and arrays that the renderer may mutate live in a heap and are
    passed around by reference; a location is an index into the heap. *)
Definition loc : Type := nat.

Inductive value : Type :=
| VUndefined
| VNull
| VBool (b : bool)
| VNum (n : Z)
| VStr (s : string)
| VRef (l : loc).

Inductive object : Type :=
| OArr (elems : list value)
| OObj (props : list (string * value)).

Abbreviation heap := (list object).

Definition truthy_value (v : value) : bool :=
  match v with
  | VUndefined | VNull => false
  | VBool b => b
  | VNum n => negb (n =? 0)%Z
  | VStr s => negb (bool_decide (s = ""))
  | VRef _ => true
  end.

(** [typeof v === 'object'] *)
Definition typeof_object (v : value) : bool :=
  match v with
  | VNull | VRef _ => true
  | _ => false
  end.

(** [o[key] = v] on the property list of an object: an existing property
    keeps its place, a new one goes last. *)
Fixpoint props_set {A : Type} (key : string) (v : A) (props : list (string * A))
  : list (string * A) :=
  match props with
  | [] => [(key, v)]
  | (k, w) :: rest =>
      if bool_decide (k = key) then (k, v) :: rest
      else (k, w) :: props_set key v rest
  end.

(** [delete o[key]] on the property list. *)
Definition props_delete {A : Type} (key : string) (props : list (string * A))
  : list (string * A) :=
  filter (fun kv => kv.1 <> key) props.

(** Building the object graph of a parsed text in the heap: the value of
    [JSON.parse], and of a structured clone received over IPC.  Every array
    and object of the text becomes a new heap object. *)
Definition alloc_elems (alloc : json -> heap -> value * heap)
  : list json -> heap -> list value * heap :=
  fix go (l : list json) (h : heap) : list value * heap :=
    match l with
    | [] => ([], h)
    | x :: rest =>
        let '(v, h1) := alloc x h in
        let '(vs, h2) := go rest h1 in
        (v :: vs, h2)
    end.

Definition alloc_members (alloc : json -> heap -> value * heap)
  : list (string * json) -> heap -> list (string * value) * heap :=
  fix go (l : list (string * json)) (h : heap) : list (string * value) * heap :=
    match l with
    | [] => ([], h)
    | (k, x) :: rest =>
        let '(v, h1) := alloc x h in
        let '(props, h2) := go rest h1 in
        ((k, v) :: props, h2)
    end.

Definition object_of_members (props : list (string * value)) : object :=
  OObj (foldl (fun acc kv => props_set kv.1 kv.2 acc) [] props).

Fixpoint alloc (j : json) (h : heap) : value * heap :=
  match j with
  | JNull => (VNull, h)
  | JBool b => (VBool b, h)
  | JNum n => (VNum n, h)
  | JStr s => (VStr s, h)
  | JArr elems =>
      let '(vs, h1) := alloc_elems alloc elems h in
      (VRef (length h1), h1 ++ [OArr vs])
  | JObj members =>
      let '(props, h1) := alloc_members alloc members h in
      (VRef (length h1), h1 ++ [object_of_members props])
  end.

(** [JSON.stringify(v)] read back as a parsed text: [Normal None] is
    [undefined]; a cyclic structure throws.  [fuel] bounds the nesting
    depth; an acyclic graph in a heap [h] nests at most [length h] deep.
    In an array [undefined] is written as [null]; in an object a property
    that is [undefined] is left out. *)
Definition ser_elems (ser : value -> completion (option json))
  : list value -> completion (list json) :=
  fix go (l : list value) : completion (list json) :=
    match l with
    | [] => Normal []
    | x :: rest =>
        match ser x with
        | Throw m => Throw m
        | Normal jx =>
            match go rest with
            | Throw m => Throw m
            | Normal js => Normal (default JNull jx :: js)
            end
        end
    end.

Definition ser_props (ser : value -> completion (option json))
  : list (string * value) -> completion (list (string * json)) :=
  fix go (l : list (string * value)) : completion (list (string * json)) :=
    match l with
    | [] => Normal []
    | (k, x) :: rest =>
        match ser x with
        | Throw m => Throw m
        | Normal jx =>
            match go rest with
            | Throw m => Throw m
            | Normal js => Normal (match jx with Some y => (k, y) :: js | None => js end)
            end
        end
    end.

Fixpoint serialize (fuel : nat) (h : heap) (v : value) : completion (option json) :=
  match v with
  | VUndefined => Normal None
  | VNull => Normal (Some JNull)
  | VBool b => Normal (Some (JBool b))
  | VNum n => Normal (Some (JNum n))
  | VStr s => Normal (Some (JStr s))
  | VRef l =>
      match fuel with
      | O => Throw "TypeError: Converting circular structure to JSON"
      | S fuel' =>
          match h !! l with
          | None => Throw "ReferenceError"
          | Some (OArr elems) =>
              match ser_elems (serialize fuel' h) elems with
              | Throw m => Throw m
              | Normal js => Normal (Some (JArr js))
              end
          | Some (OObj props) =>
              match ser_props (serialize fuel' h) props with
              | Throw m => Throw m
              | Normal js => Normal (Some (JObj js))
              end
          end
      end
  end.

(** [JSON.parse(JSON.stringify(v))]: a deep copy; [JSON.parse(undefined)]
    is a [SyntaxError].  A computation on the heap returns its completion
    together with the heap it leaves. *)
Definition clone (h : heap) (v : value) : completion value * heap :=
  match serialize (S (length h)) h v with
  | Throw m => (Throw m, h)
  | Normal None => (Throw "SyntaxError: undefined is not valid JSON", h)
  | Normal (Some j) => let '(v', h') := alloc j h in (Normal v', h')
  end.

(** [v.key] *)
Definition get_prop (h : heap) (v : value) (key : string) : completion value :=
  match v with
  | VUndefined | VNull => Throw "TypeError: Cannot read properties"
  | VRef l =>
      match h !! l with
      | Some (OObj props) => Normal (default VUndefined (assoc key props))
      | _ => Normal VUndefined
      end
  | _ => Normal VUndefined
  end.

(** [Array.isArray(v)] with the elements of the array. *)
Definition as_array (h : heap) (v : value) : option (list value) :=
  match v with
  | VRef l => match h !! l with Some (OArr elems) => Some elems | _ => None end
  | _ => None
  end.

(** [delete v[key]] for a key that is not an array index: a [TypeError] on
    [null] and [undefined], nothing on a primitive or an array, the
    property removed from an object -- in place. *)
Definition delete_prop (h : heap) (v : value) (key : string) : completion unit * heap :=
  match v with
  | VUndefined | VNull => (Throw "TypeError: Cannot convert undefined or null to object", h)
  | VRef l =>
      match h !! l with
      | Some (OObj props) => (Normal (), <[l := OObj (props_delete key props)]> h)
      | _ => (Normal (), h)
      end
  | _ => (Normal (), h)
  end.

(** [v.key = w] -- in place on an object; nothing on a primitive. *)
Definition set_prop (h : heap) (v : value) (key : string) (w : value)
  : completion unit * heap :=
  match v with
  | VUndefined | VNull => (Throw "TypeError: Cannot set properties", h)
  | VRef l =>
      match h !! l with
      | Some (OObj props) => (Normal (), <[l := OObj (props_set key w props)]> h)
      | _ => (Normal (), h)
      end
  | _ => (Normal (), h)
  end.

(** *** Strings *)

Definition nl : string := String (ascii_of_nat 10) "".

(** String conversion of a primitive, as in [text += v] and [`${v}`]. *)
Definition string_of_value (v : value) : string :=
  match v with
  | VUndefined => "undefined"
  | VNull => "null"
  | VBool b => if b then "true" else "false"
  | VNum n => pretty n
  | VStr s => s
  | VRef _ => "[object Object]"
  end.

(** [`${j}`] for a parsed value: arrays join their elements with commas,
    [null] elements being empty. *)
Fixpoint string_of_json (j : json) : string :=
  match j with
  | JNull => "null"
  | JBool b => if b then "true" else "false"
  | JNum n => pretty n
  | JStr s => s
  | JArr elems =>
      (fix join (l : list json) : string :=
         match l with
         | [] => ""
         | [x] => match x with JNull => "" | _ => string_of_json x end
         | x :: (_ :: _) as rest =>
             (match x with JNull => "" | _ => string_of_json x end) +:+ "," +:+ join rest
         end) elems
  | JObj _ => "[object Object]"
  end.

(** [l.join(sep)] on strings. *)
Fixpoint join (sep : string) (l : list string) : string :=
  match l with
  | [] => ""
  | [x] => x
  | x :: rest => x +:+ sep +:+ join sep rest
  end.

(** ASCII white space, the part of [\s] and of [trim()] that a byte string
    can hold. *)
Definition is_space (c : ascii) : bool :=
  let n := nat_of_ascii c in
  bool_decide (n = 32) || (bool_decide (9 <= n) && bool_decide (n <= 13)).

Definition is_word (c : ascii) : bool :=
  let n := nat_of_ascii c in
  (bool_decide (48 <= n) && bool_decide (n <= 57))
  || (bool_decide (65 <= n) && bool_decide (n <= 90))
  || (bool_decide (97 <= n) && bool_decide (n <= 122))
  || bool_decide (n = 95).

Definition lower (c : ascii) : ascii :=
  let n := nat_of_ascii c in
  if bool_decide (65 <= n) && bool_decide (n <= 90) then ascii_of_nat (n + 32) else c.

Fixpoint toLowerCase (s : string) : string :=
  match s with
  | EmptyString => EmptyString
  | String c rest => String (lower c) (toLowerCase rest)
  end.

Fixpoint trimStart (s : string) : string :=
  match s with
  | EmptyString => EmptyString
  | String c rest => if is_space c then trimStart rest else s
  end.

Fixpoint trimEnd (s : string) : string :=
  match s with
  | EmptyString => EmptyString
  | String c rest =>
      match trimEnd rest with
      | EmptyString => if is_space c then EmptyString else String c EmptyString
      | rest' => String c rest'
      end
  end.

Definition trim (s : string) : string := trimEnd (trimStart s).

Definition includes (s sub : string) : bool :=
  match sub with
  | EmptyString => true
  | _ => bool_decide (is_Some (String.index 0 sub s))
  end.

(** *** Regular expressions

    The patterns of the renderer use literals, alternation, [\s+], [\w+],
    groups and the anchors [^...$], under the [i] flag.  They are matched
    against the whole string by derivatives. *)
Inductive regex : Type :=
| Void
| Eps
| Class (p : ascii -> bool)
| Seq (r1 r2 : regex)
| Alt (r1 r2 : regex)
| Star (r : regex).

Fixpoint nullable (r : regex) : bool :=
  match r with
  | Void => false
  | Eps => true
  | Class _ => false
  | Seq r1 r2 => nullable r1 && nullable r2
  | Alt r1 r2 => nullable r1 || nullable r2
  | Star _ => true
  end.

Fixpoint deriv (c : ascii) (r : regex) : regex :=
  match r with
  | Void => Void
  | Eps => Void
  | Class p => if p c then Eps else Void
  | Seq r1 r2 =>
      if nullable r1 then Alt (Seq (deriv c r1) r2) (deriv c r2)
      else Seq (deriv c r1) r2
  | Alt r1 r2 => Alt (deriv c r1) (deriv c r2)
  | Star r1 => Seq (deriv c r1) (Star r1)
  end.

(** [/^r$/.test(s)] *)
Fixpoint test (r : regex) (s : string) : bool :=
  match s with
  | EmptyString => nullable r
  | String c rest => test (deriv c r) rest
  end.

Definition Plus (r : regex) : regex := Seq r (Star r).

(** A literal under the [i] flag. *)
Fixpoint lit_i (s : string) : regex :=
  match s with
  | EmptyString => Eps
  | String c rest => Seq (Class (fun x => bool_decide (lower x = lower c))) (lit_i rest)
  end.

Definition alts (l : list string) : regex :=
  foldr (fun s r => Alt (lit_i s) r) Void l.

(** Induction on a parsed text, with the hypothesis for every element and
    member. *)
Section json_nested_ind.
Context (P : json -> Prop).
Context (HNull : P JNull) (HBool : forall b, P (JBool b)) (HNum : forall n, P (JNum n))
        (HStr : forall s, P (JStr s))
        (HArr : forall elems, Forall P elems -> P (JArr elems))
        (HObj : forall members, Forall (fun kv => P kv.2) members -> P (JObj members)).

Fixpoint json_nested_ind (j : json) : P j :=
  match j with
  | JNull => HNull
  | JBool b => HBool b
  | JNum n => HNum n
  | JStr s => HStr s
  | JArr elems =>
      HArr elems
        ((fix go (l : list json) : Forall P l :=
            match l with
            | [] => @List.Forall_nil _ P
            | x :: rest => @List.Forall_cons _ P x rest (json_nested_ind x) (go rest)
            end) elems)
  | JObj members =>
      HObj members
        ((fix go (l : list (string * json)) : Forall (fun kv => P kv.2) l :=
            match l with
            | [] => @List.Forall_nil _ _
            | kv :: rest => @List.Forall_cons _ _ kv rest (json_nested_ind kv.2) (go rest)
            end) members)
  end.

End json_nested_ind.

(** The parts of the JavaScript runtime that are taken as given: the JSON
    reader and the JSON writers. *)
Class Host : Type := {
  JSON_parse : string -> option json;          (* [None]: SyntaxError *)
  JSON_stringify : json -> string;             (* [JSON.stringify(v)] *)
  JSON_stringify_pretty : heap -> value -> string;   (* [JSON.stringify(v, null, 2)] *)
}.

End Js.

(** ** ui/main.js: the Electron main process *)

Module Main.
Import Js.

(** What the ['close'] event of a spawned backend process reports: the exit
    code ([None] when the child was killed by a signal) and what was
    collected from its output streams. *)
Record ChildExit : Type := {
  code : option Z;
  dataString : string;
  errorString : string;
}.

Section main_process.
Context `{Host}.

(** [checkAdminStatus()], given [process.platform] and the way the probe
    child ([api_wrapper.py --check-admin]) closes. *)
Definition checkAdminStatus (platform : string) (probe : ChildExit) : settled json :=
  if bool_decide (platform = "win32") then
    if bool_decide (code probe = Some 0%Z) then
      match JSON_parse (dataString probe) with
      | Some result =>
          match member result "is_admin" with
          | Normal is_admin => Resolved (or_else is_admin (JBool false))
          | Throw _ => Resolved (JBool false)
          end
      | None => Resolved (JBool false)
      end
    else Resolved (JBool false)
  else Resolved (JBool false).

(** The promise built by [executePythonBackend], [executePlan] and
    [getPythonLogs] from the ['close'] event; [parse_failure] is the message
    of the error raised when the output does not parse. *)
Definition backend_promise (parse_failure : string -> string) (child : ChildExit)
  : settled json :=
  if bool_decide (code child <> Some 0%Z) then
    Rejected (str_or (Some (errorString child))
                ("Python process exited with code " +:+
                   match code child with Some c => pretty c | None => "null" end))
  else
    match JSON_parse (dataString child) with
    | Some result => Resolved result
    | None => Rejected (parse_failure (dataString child))
    end.

(** The backend invocations: the command line after the script path, and
    what is written to the child's standard input. *)
Record Spawn : Type := {
  args : list string;
  stdin : option string;
}.

(** [conversationHistory.length], where it is a number. *)
Definition history_length (conversationHistory : option json) : nat :=
  match conversationHistory with
  | Some (JArr l) => length l
  | Some (JStr s) => String.length s
  | _ => 0
  end.

Definition executePythonBackend_spawn (prompt : string)
    (conversationHistory : json) (execute : bool) : Spawn :=
  let with_history := bool_decide (0 < history_length (Some conversationHistory)) in
  {| args := ["--prompt"; prompt]
             ++ (if execute then [] else ["--plan-only"])
             ++ (if with_history then ["--with-history"] else []);
     stdin := if with_history then Some (JSON_stringify conversationHistory) else None |}.

Definition executePlan_spawn (plan : json) : Spawn :=
  {| args := ["--execute-plan"]; stdin := Some (JSON_stringify plan) |}.

(** [limit || 10]: the log limit of the ['view-logs'] handler; [None] is a
    call without a limit. *)
Definition limit_or_default (limit : option Z) : Z :=
  match limit with
  | Some n => if (n =? 0)%Z then 10%Z else n
  | None => 10%Z
  end.

Definition getPythonLogs_spawn (limit : Z) : Spawn :=
  {| args := ["--get-logs"; pretty limit]; stdin := None |}.

(** The invocations that reach [ipcMain.handle]. *)
Inductive Invoke : Type :=
| SubmitPrompt (prompt : string) (conversationHistory : option json)
| ApprovePlan (plan : json)
| ViewLogs (limit : option Z)
| GetHelp
| CheckAdmin.

(** The value a handler returns to the renderer. *)
Inductive Reply : Type :=
| BackendReply (result : json)
| ErrorReply (error : string)                     (* [{success: false, error}] *)
| HelpReply
| AdminReply (is_admin : json).                   (* [{success: true, is_admin}] *)

Definition settle (p : settled json) : Reply :=
  match p with
  | Resolved result => BackendReply result
  | Rejected message => ErrorReply message
  end.

(** The global variables of the main process, with the records of how often
    the admin probe ran, which backend children were spawned and which
    ['admin-status'] messages were sent. *)
Record State : Type := {
  isRunningAsAdmin : json;
  mainWindow : option string;          (* the open window, by its title *)
  pythonProcess : option unit;
  quit : bool;
  admin_checks : nat;
  spawned : list Spawn;
  sent_admin_status : list json;       (* ['admin-status'] messages sent *)
}.

Definition createWindow (st : State) : State :=
  {| isRunningAsAdmin := isRunningAsAdmin st;
     mainWindow := Some ("Desktop Automation Agent" +:+
                         (if truthy (isRunningAsAdmin st) then " [ADMINISTRATOR]" else ""));
     pythonProcess := pythonProcess st;
     quit := quit st;
     admin_checks := admin_checks st;
     spawned := spawned st;
     sent_admin_status := sent_admin_status st |}.

(** Module load followed by the [app.whenReady()] callback; the promise of
    [checkAdminStatus] never rejects, see [checkAdminStatus]. *)
Definition module_load : State :=
  {| isRunningAsAdmin := JBool false; mainWindow := None; pythonProcess := None;
     quit := false; admin_checks := 0; spawned := []; sent_admin_status := [] |}.

Definition whenReady (platform : string) (probe : ChildExit) : State :=
  let st := module_load in
  match checkAdminStatus platform probe with
  | Resolved v =>
      createWindow
        {| isRunningAsAdmin := v; mainWindow := mainWindow st;
           pythonProcess := pythonProcess st; quit := quit st;
           admin_checks := S (admin_checks st); spawned := spawned st;
           sent_admin_status := sent_admin_status st |}
  | Rejected _ => st
  end.

(** What happens in the main process after start-up. *)
Inductive Event : Type :=
| Activate (open_windows : nat)
| WindowClosed
| WindowAllClosed (platform : string)
| DidFinishLoad
| Handle (call : Invoke) (child : ChildExit).

Definition record_spawn (s : Spawn) (st : State) : State :=
  {| isRunningAsAdmin := isRunningAsAdmin st; mainWindow := mainWindow st;
     pythonProcess := pythonProcess st; quit := quit st;
     admin_checks := admin_checks st; spawned := spawned st ++ [s];
     sent_admin_status := sent_admin_status st |}.

(** One [ipcMain.handle] callback; [child] is how the spawned backend
    closes (unused by the two handlers that spawn nothing). *)
Definition handle (call : Invoke) (child : ChildExit) (st : State) : State * Reply :=
  match call with
  | SubmitPrompt prompt conversationHistory =>
      (record_spawn (executePythonBackend_spawn prompt
                       (or_else conversationHistory (JArr [])) false) st,
       settle (backend_promise (fun out => "Failed to parse Python output: " +:+ out) child))
  | ApprovePlan plan =>
      (record_spawn (executePlan_spawn plan) st,
       settle (backend_promise (fun _ => "Failed to parse Python output") child))
  | ViewLogs limit =>
      (record_spawn (getPythonLogs_spawn (limit_or_default limit)) st,
       settle (backend_promise (fun _ => "Failed to parse Python output") child))
  | GetHelp => (st, HelpReply)
  | CheckAdmin => (st, AdminReply (isRunningAsAdmin st))
  end.

Definition step (st : State) (e : Event) : State * option Reply :=
  match e with
  | Activate open_windows =>
      (if bool_decide (open_windows = 0) then createWindow st else st, None)
  | WindowClosed =>
      ({| isRunningAsAdmin := isRunningAsAdmin st; mainWindow := None;
          pythonProcess := pythonProcess st; quit := quit st;
          admin_checks := admin_checks st; spawned := spawned st;
          sent_admin_status := sent_admin_status st |}, None)
  | WindowAllClosed platform =>
      ({| isRunningAsAdmin := isRunningAsAdmin st; mainWindow := mainWindow st;
          pythonProcess := pythonProcess st;
          quit := if bool_decide (platform <> "darwin") then true else quit st;
          admin_checks := admin_checks st; spawned := spawned st;
          sent_admin_status := sent_admin_status st |}, None)
  | DidFinishLoad =>
      ({| isRunningAsAdmin := isRunningAsAdmin st; mainWindow := mainWindow st;
          pythonProcess := pythonProcess st; quit := quit st;
          admin_checks := admin_checks st; spawned := spawned st;
          sent_admin_status := sent_admin_status st ++ [isRunningAsAdmin st] |}, None)
  | Handle call child =>
      let '(st', r) := handle call child st in (st', Some r)
  end.

(** A run of the main process: the final state and the replies given, in
    order. *)
Fixpoint run (st : State) (events : list Event) : State * list Reply :=
  match events with
  | [] => (st, [])
  | e :: rest =>
      let '(st1, r) := step st e in
      let '(st2, rs) := run st1 rest in
      (st2, match r with Some x => x :: rs | None => rs end)
  end.

Definition is_admin_reply (r : Reply) : option json :=
  match r with AdminReply v => Some v | _ => None end.

End main_process.
End Main.

(** ** ui/renderer.js: the chat window *)

Module Renderer.
Import Js.

(** *** Data exchanged with the backend *)

(** One step of a plan, as the planner sends it. *)
Record Action : Type := {
  action : string;
  args : list (string * json);
  risk_level : option string;
  description : option string;
}.

Abbreviation Plan := (list Action).

(** One element of [result.results] as it crosses the IPC channel, and as
    the renderer holds it: [output] then lives in the renderer's heap. *)
Record WireResult : Type := {
  w_action : string;
  w_status : string;
  w_output : option json;
  w_error : option string;
}.

Record ExecResult : Type := {
  r_action : string;
  status : string;
  output : value;
  error : option string;
}.

(** The replies of the four channels of [electronAPI]. *)
Record PlannerReply : Type := {
  p_success : bool;
  p_plan : option Plan;
  p_error : option string;
}.

Record ExecReply : Type := {
  e_success : bool;
  e_results : list WireResult;
  e_error : option string;
}.

Record LogEntry : Type := {
  log_action : string;
  log_timestamp : string;
  log_status : string;
  log_error : option string;
}.

Record LogsReply : Type := {
  l_success : bool;
  l_logs : option (list LogEntry);
}.

Record HelpSection : Type := {
  h_title : string;
  h_examples : list string;
}.

Record HelpReply : Type := {
  hr_success : bool;
  hr_help : list HelpSection;
}.

(** *** The state of the window *)

Record MessageData : Type := {
  data_plan : option Plan;
  data_results : option (list ExecResult);
}.

Record Message : Type := {
  m_type : string;
  m_title : string;
  m_content : string;
  m_data : option MessageData;
}.

(** A conversation of the side bar (its time stamp, which only orders the
    display, is left out). *)
Record Conversation : Type := {
  id : string;
  title : string;
  messages : list Message;
}.

(** A child of [outputArea]. *)
Record Node : Type := {
  node_id : nat;
  className : string;
  innerHTML : string;
}.

(** A call through [window.electronAPI] (preload.js); there is no other
    channel from the window to the main process. *)
Inductive Call : Type :=
| submitPrompt (prompt : string) (conversationHistory : list Message)
| approvePlan (plan : option Plan)
| viewLogs (limit : Z)
| getHelp.

(** preload.js: the channel of [ipcRenderer.invoke] behind each function
    of [electronAPI]. *)
Definition channel (c : Call) : string :=
  match c with
  | submitPrompt _ _ => "submit-prompt"
  | approvePlan _ => "approve-plan"
  | viewLogs _ => "view-logs"
  | getHelp => "get-help"
  end.

(** The module-level variables, the children of [outputArea] with the
    counter that names new nodes, the stored conversations, the heap, and
    the record of the calls made so far. *)
Record State : Type := {
  currentPlan : option Plan;
  isProcessing : bool;
  shouldStop : bool;
  lastResult : option ExecResult;
  conversations : list Conversation;
  currentConversationId : option string;
  outputArea : list Node;
  next_node : nat;
  localStorage : option (list Conversation);
  heap_of : heap;
  invoked : list Call;
}.

Definition set_currentPlan (v : option Plan) (st : State) : State :=
  {| currentPlan := v; isProcessing := isProcessing st; shouldStop := shouldStop st;
     lastResult := lastResult st; conversations := conversations st;
     currentConversationId := currentConversationId st; outputArea := outputArea st;
     next_node := next_node st; localStorage := localStorage st;
     heap_of := heap_of st; invoked := invoked st |}.

Definition set_flags (processing stop : bool) (st : State) : State :=
  {| currentPlan := currentPlan st; isProcessing := processing; shouldStop := stop;
     lastResult := lastResult st; conversations := conversations st;
     currentConversationId := currentConversationId st; outputArea := outputArea st;
     next_node := next_node st; localStorage := localStorage st;
     heap_of := heap_of st; invoked := invoked st |}.

Definition set_lastResult (v : option ExecResult) (st : State) : State :=
  {| currentPlan := currentPlan st; isProcessing := isProcessing st;
     shouldStop := shouldStop st; lastResult := v; conversations := conversations st;
     currentConversationId := currentConversationId st; outputArea := outputArea st;
     next_node := next_node st; localStorage := localStorage st;
     heap_of := heap_of st; invoked := invoked st |}.

Definition set_conversations (v : list Conversation) (st : State) : State :=
  {| currentPlan := currentPlan st; isProcessing := isProcessing st;
     shouldStop := shouldStop st; lastResult := lastResult st; conversations := v;
     currentConversationId := currentConversationId st; outputArea := outputArea st;
     next_node := next_node st; localStorage := localStorage st;
     heap_of := heap_of st; invoked := invoked st |}.

Definition set_currentConversationId (v : option string) (st : State) : State :=
  {| currentPlan := currentPlan st; isProcessing := isProcessing st;
     shouldStop := shouldStop st; lastResult := lastResult st;
     conversations := conversations st; currentConversationId := v;
     outputArea := outputArea st; next_node := next_node st;
     localStorage := localStorage st; heap_of := heap_of st; invoked := invoked st |}.

Definition set_outputArea (v : list Node) (st : State) : State :=
  {| currentPlan := currentPlan st; isProcessing := isProcessing st;
     shouldStop := shouldStop st; lastResult := lastResult st;
     conversations := conversations st;
     currentConversationId := currentConversationId st; outputArea := v;
     next_node := next_node st; localStorage := localStorage st;
     heap_of := heap_of st; invoked := invoked st |}.

Definition set_next_node (v : nat) (st : State) : State :=
  {| currentPlan := currentPlan st; isProcessing := isProcessing st;
     shouldStop := shouldStop st; lastResult := lastResult st;
     conversations := conversations st;
     currentConversationId := currentConversationId st; outputArea := outputArea st;
     next_node := v; localStorage := localStorage st;
     heap_of := heap_of st; invoked := invoked st |}.

Definition set_localStorage (v : option (list Conversation)) (st : State) : State :=
  {| currentPlan := currentPlan st; isProcessing := isProcessing st;
     shouldStop := shouldStop st; lastResult := lastResult st;
     conversations := conversations st;
     currentConversationId := currentConversationId st; outputArea := outputArea st;
     next_node := next_node st; localStorage := v;
     heap_of := heap_of st; invoked := invoked st |}.

Definition set_heap (v : heap) (st : State) : State :=
  {| currentPlan := currentPlan st; isProcessing := isProcessing st;
     shouldStop := shouldStop st; lastResult := lastResult st;
     conversations := conversations st;
     currentConversationId := currentConversationId st; outputArea := outputArea st;
     next_node := next_node st; localStorage := localStorage st;
     heap_of := v; invoked := invoked st |}.

Definition invoke (c : Call) (st : State) : State :=
  {| currentPlan := currentPlan st; isProcessing := isProcessing st;
     shouldStop := shouldStop st; lastResult := lastResult st;
     conversations := conversations st;
     currentConversationId := currentConversationId st; outputArea := outputArea st;
     next_node := next_node st; localStorage := localStorage st;
     heap_of := heap_of st; invoked := invoked st ++ [c] |}.

(** The script's variables before its first statement runs. *)
Definition script_start (stored : option (list Conversation)) : State :=
  {| currentPlan := None; isProcessing := false; shouldStop := false;
     lastResult := None; conversations := []; currentConversationId := None;
     outputArea := []; next_node := 0; localStorage := stored;
     heap_of := []; invoked := [] |}.

(** *** Text pieces *)

Definition dq : string := String (ascii_of_nat 34) "".
Definition q (s : string) : string := dq +:+ s +:+ dq.
(** The check-less cross mark and the bullet of the messages (UTF-8). *)
Definition cross_mark : string :=
  String (ascii_of_nat 226) (String (ascii_of_nat 157) (String (ascii_of_nat 140) "")).
Definition bullet : string :=
  String (ascii_of_nat 226) (String (ascii_of_nat 128) (String (ascii_of_nat 162) "")).

(** The layout of [formatSystemInfo(output)], which reads [output] and
    prints its numbers with [toFixed], is not needed below and is taken as
    given (its second parameter is unused in the source). *)
Class Layout : Type := {
  formatSystemInfo : heap -> value -> string;
}.

Section window.
Context `{Host} `{Layout}.

(** *** Messages on the page *)

Definition riskColor (a : Action) : string :=
  if bool_decide (risk_level a = Some "low") then "#4CAF50"
  else if bool_decide (risk_level a = Some "high") then "#f44336"
  else "#ff9800".

Definition plan_item_html (index : nat) (a : Action) : string :=
  "<div class=" +:+ q "action-item" +:+ " style="
    +:+ q ("border-left-color: " +:+ riskColor a) +:+ ">"
  +:+ "<div class=" +:+ q "action-name" +:+ ">"
    +:+ pretty (index + 1) +:+ ". " +:+ action a +:+ "</div>"
  +:+ "<div class=" +:+ q "action-args" +:+ ">"
    +:+ String.concat ""
          (map (fun kv => kv.1 +:+ ": " +:+ string_of_json kv.2 +:+ "<br>") (args a))
    +:+ "</div>"
  +:+ "</div>".

Definition statusColor (r : ExecResult) : string :=
  if bool_decide (status r = "success") then "#4CAF50" else "#f44336".

Definition result_item_html (index : nat) (r : ExecResult) : string :=
  "<div class=" +:+ q "action-item" +:+ " style="
    +:+ q ("border-left-color: " +:+ statusColor r) +:+ ">"
  +:+ "<div class=" +:+ q "action-name" +:+ ">"
    +:+ pretty (index + 1) +:+ ". " +:+ r_action r +:+ "</div>"
  +:+ "<div class=" +:+ q "action-args" +:+ ">Status: " +:+ status r +:+ "</div>"
  +:+ (match error r with
       | Some e =>
           if bool_decide (e = "") then ""
           else "<div class=" +:+ q "action-args" +:+ " style=" +:+ q "color: #f44336;"
                +:+ ">Error: " +:+ e +:+ "</div>"
       | None => ""
       end)
  +:+ "</div>".

Definition list_heading (text : string) : string :=
  "<div class=" +:+ q "action-plan" +:+ ">"
  +:+ "<div style=" +:+ q "font-weight: bold; margin-bottom: 10px;" +:+ ">" +:+ text +:+ "</div>".

Definition message_html (title content : string) (data : option MessageData) : string :=
  "<strong>" +:+ title +:+ "</strong><div class=" +:+ q "message-content" +:+ ">"
    +:+ content +:+ "</div>"
  +:+ (match data ≫= data_plan with
       | Some plan =>
           list_heading "Planned Actions:"
           +:+ String.concat "" (imap plan_item_html plan) +:+ "</div>"
       | None => ""
       end)
  +:+ (match data ≫= data_results with
       | Some results =>
           list_heading "Execution Results:"
           +:+ String.concat "" (imap result_item_html results) +:+ "</div>"
       | None => ""
       end).

Definition appendChild (class html : string) (st : State) : State :=
  set_next_node (S (next_node st))
    (set_outputArea
       (outputArea st ++ [{| node_id := next_node st; className := class; innerHTML := html |}])
       st).

Definition addMessageToDOM (type title content : string) (data : option MessageData)
    (st : State) : State :=
  appendChild ("message " +:+ type) (message_html title content data) st.

(** *** Conversations *)

Definition saveConversations (st : State) : State :=
  set_localStorage (Some (conversations st)) st.

(** [conversations.find(c => c.id === conversationId)], with the index. *)
Definition find_conversation (conversationId : option string) (l : list Conversation)
  : option (nat * Conversation) :=
  match conversationId with
  | Some cid => list_find (fun c => id c = cid) l
  | None => None
  end.

(** [fresh] is the value of [generateId()]. *)
Definition createNewConversation (fresh : string) (st : State) : State :=
  let newConversation := {| id := fresh; title := "New Chat"; messages := [] |} in
  saveConversations
    (set_outputArea []
       (set_currentConversationId (Some fresh)
          (set_conversations (newConversation :: conversations st) st))).

Definition loadConversation (conversationId : string) (st : State) : State :=
  match find_conversation (Some conversationId) (conversations st) with
  | None => st
  | Some (_, conversation) =>
      foldl (fun st msg => addMessageToDOM (m_type msg) (m_title msg) (m_content msg) (m_data msg) st)
        (set_outputArea [] (set_currentConversationId (Some conversationId) st))
        (messages conversation)
  end.

Definition loadConversations (fresh : string) (st : State) : State :=
  let st := match localStorage st with
            | Some saved => set_conversations saved st
            | None => st
            end in
  match conversations st with
  | [] => createNewConversation fresh st
  | first :: _ => loadConversation (id first) (set_currentConversationId (Some (id first)) st)
  end.

Definition deleteConversation (conversationId fresh : string) (st : State) : State :=
  match find_conversation (Some conversationId) (conversations st) with
  | None => st
  | Some (index, _) =>
      let st := set_conversations (delete index (conversations st)) st in
      let st :=
        if bool_decide (Some conversationId = currentConversationId st) then
          match conversations st with
          | first :: _ => loadConversation (id first) st
          | [] => createNewConversation fresh st
          end
        else st in
      saveConversations st
  end.

Definition updateConversationTitle (conversationId : option string) (firstMessage : string)
    (st : State) : State :=
  match find_conversation conversationId (conversations st) with
  | None => st
  | Some (index, conversation) =>
      if bool_decide (title conversation = "New Chat") then
        saveConversations
          (set_conversations
             (<[index := {| id := id conversation;
                            title := substring 0 40 firstMessage
                                     +:+ (if bool_decide (40 < String.length firstMessage)
                                          then "..." else "");
                            messages := messages conversation |}]> (conversations st))
             st)
      else st
  end.

Definition saveMessageToConversation (type title content : string)
    (data : option MessageData) (st : State) : State :=
  match find_conversation (currentConversationId st) (conversations st) with
  | None => st
  | Some (index, conversation) =>
      let conversation' :=
        {| id := id conversation; title := Renderer.title conversation;
           messages := messages conversation
                       ++ [{| m_type := type; m_title := title;
                              m_content := content; m_data := data |}] |} in
      let st := set_conversations (<[index := conversation']> (conversations st)) st in
      let st :=
        if bool_decide (type = "user")
           && bool_decide (Renderer.title conversation' = "New Chat")
        then updateConversationTitle (currentConversationId st) content st
        else st in
      saveConversations st
  end.

Definition clearHistory (confirmed : bool) (fresh : string) (st : State) : State :=
  if confirmed then createNewConversation fresh (set_conversations [] st) else st.

Definition addMessage (type title content : string) (data : option MessageData)
    (st : State) : State :=
  saveMessageToConversation type title content data
    (addMessageToDOM type title content data st).

(** *** Reformatting the last result *)

Definition space : regex := Plus (Class is_space).
Definition word : regex := Plus (Class is_word).

Definition formattingPatterns : list regex :=
  [ Seq (alts ["give"; "show"])
      (Seq space (Seq (alts ["result"; "output"; "that"])
         (Seq space (Seq (alts ["without"; "hide"; "no"; "remove"]) (Seq space word)))));
    Seq (lit_i "without") (Seq space word);
    Seq (lit_i "hide") (Seq space word);
    Seq (alts ["don't"; "do not"]) (Seq space (Seq (lit_i "show") (Seq space word)));
    Seq (lit_i "remove") (Seq space word) ].

Definition isFormattingOnlyRequest (prompt : string) : bool :=
  existsb (fun pattern => test pattern (trim prompt)) formattingPatterns.

Definition extractExcludeFields (prompt : string) : list string :=
  let lowerPrompt := toLowerCase prompt in
  (if includes lowerPrompt "without pid" || includes lowerPrompt "hide pid"
      || includes lowerPrompt "no pid" then ["pid"] else [])
  ++ (if includes lowerPrompt "without memory percent"
         || includes lowerPrompt "hide memory percent" then ["memory_percent"] else [])
  ++ (if includes lowerPrompt "without memory" || includes lowerPrompt "hide memory"
      then ["memory_mb"] else []).

(** [excludeFields.forEach(field => { delete proc[field]; })] *)
Fixpoint delete_fields (h : heap) (proc : value) (fields : list string)
  : completion unit * heap :=
  match fields with
  | [] => (Normal (), h)
  | field :: rest =>
      match delete_prop h proc field with
      | (Throw m, h1) => (Throw m, h1)
      | (Normal _, h1) => delete_fields h1 proc rest
      end
  end.

(** [top_processes.forEach(proc => ...)] *)
Fixpoint forEach_proc (h : heap) (procs : list value) (fields : list string)
  : completion unit * heap :=
  match procs with
  | [] => (Normal (), h)
  | proc :: rest =>
      match delete_fields h proc fields with
      | (Throw m, h1) => (Throw m, h1)
      | (Normal _, h1) => forEach_proc h1 rest fields
      end
  end.

(** [reformatLastResult(excludeFields)]; [excludeFields] is given by its
    elements and by the reference to the array that holds them. *)
Definition reformatLastResult (h : heap) (lastResult : option ExecResult)
    (excludeFields : list string) (excludeFields_ref : value) : completion value * heap :=
  match lastResult with
  | None => (Normal VNull, h)
  | Some r =>
      if negb (truthy_value (output r)) then (Normal VNull, h)
      else
        match clone h (output r) with
        | (Throw m, h1) => (Throw m, h1)
        | (Normal reformattedOutput, h1) =>
            match get_prop h1 reformattedOutput "top_processes" with
            | Throw m => (Throw m, h1)
            | Normal top_processes =>
                match (if truthy_value top_processes then as_array h1 top_processes
                       else None) with
                | Some procs =>
                    match forEach_proc h1 procs excludeFields with
                    | (Throw m, h2) => (Throw m, h2)
                    | (Normal _, h2) =>
                        match set_prop h2 reformattedOutput "exclude_fields"
                                excludeFields_ref with
                        | (Throw m, h3) => (Throw m, h3)
                        | (Normal _, h3) => (Normal reformattedOutput, h3)
                        end
                    end
                | None => (Normal reformattedOutput, h1)
                end
            end
        end
  end.

(** *** The plan pipeline *)

Definition setProcessing (processing : bool) (st : State) : State :=
  set_flags processing false st.

Definition handleStop (st : State) : State :=
  setProcessing false
    (addMessage "warning" "Stopped" "Processing stopped by user." None
       (set_flags (isProcessing st) true st)).

Definition handleClear (st : State) : State :=
  set_currentPlan None (set_outputArea [] st).

Definition thinking_html : string :=
  nl +:+ "        <strong>Agent</strong>" +:+ nl
  +:+ "        <div class=" +:+ q "message-content" +:+ ">" +:+ nl
  +:+ "            <span class=" +:+ q "loading" +:+ "></span>" +:+ nl
  +:+ "            <span style=" +:+ q "margin-left: 8px;" +:+ ">Thinking...</span>" +:+ nl
  +:+ "        </div>" +:+ nl +:+ "    ".

(** The indicator is known by the identity of its node. *)
Definition addThinkingIndicator (st : State) : nat * State :=
  (next_node st, appendChild "message info thinking-indicator" thinking_html st).

Definition removeThinkingIndicator (element : nat) (st : State) : State :=
  set_outputArea (filter (fun n => node_id n <> element) (outputArea st)) st.

(** The part of [handleSubmit] from [setProcessing(true)] to the [await] of
    [submitPrompt]. *)
Definition submit_to_backend (prompt : string) (st : State) : State :=
  let st := setProcessing true st in
  let '(_, st) := addThinkingIndicator st in
  let conversationHistory :=
    match find_conversation (currentConversationId st) (conversations st) with
    | Some (_, conversation) => messages conversation
    | None => []
    end in
  invoke (submitPrompt prompt conversationHistory) st.

(** [handleSubmit()] up to its first [await] (or to its end, when the
    request is answered in the window); [input] is [promptInput.value].  A
    [throw] of [reformatLastResult] ends the function where it stands. *)
Definition handleSubmit (input : string) (st : State) : State :=
  let prompt := trim input in
  if bool_decide (prompt = "") || isProcessing st then st
  else
    let st := addMessage "user" "You" prompt None st in
    if isFormattingOnlyRequest prompt && bool_decide (is_Some (lastResult st)) then
      let excludeFields := extractExcludeFields prompt in
      let excludeFields_ref := VRef (length (heap_of st)) in
      let st := set_heap (heap_of st ++ [OArr (map VStr excludeFields)]) st in
      if bool_decide (0 < length excludeFields) then
        match reformatLastResult (heap_of st) (lastResult st)
                excludeFields excludeFields_ref with
        | (Throw _, h) => set_heap h st
        | (Normal reformatted, h) =>
            let st := set_heap h st in
            if truthy_value reformatted then
              addMessage "success" "Done"
                ("Reformatted (excluding: " +:+ join ", " excludeFields +:+ ")"
                 +:+ nl +:+ nl +:+ formatSystemInfo (heap_of st) reformatted)
                None st
            else submit_to_backend prompt st
        end
      else submit_to_backend prompt st
    else submit_to_backend prompt st.

Definition displayValue (v : json) : string :=
  match v with
  | JStr s =>
      if bool_decide (50 < String.length s) then substring 0 50 s +:+ "..."
      else JSON_stringify v
  | _ => JSON_stringify v
  end.

Definition keyArgs (a : Action) : list (string * json) :=
  take 3 (filter (fun kv => truthy kv.2 ∧ kv.1 <> "code" ∧ kv.1 <> "script") (args a)).

Definition planDescription (plan : Plan) : string :=
  "I will perform " +:+ pretty (length plan) +:+ " action"
  +:+ (if bool_decide (1 < length plan) then "s" else "") +:+ ":" +:+ nl +:+ nl
  +:+ String.concat ""
        (imap (fun index a =>
                 pretty (index + 1) +:+ ". " +:+ str_or (description a) (action a) +:+ nl
                 +:+ String.concat ""
                       (map (fun kv => "   " +:+ bullet +:+ " " +:+ kv.1 +:+ ": "
                                       +:+ displayValue kv.2 +:+ nl) (keyArgs a))
                 +:+ nl) plan).

(** [handleSubmit] from the moment the promise of [submitPrompt] resolves,
    up to the [await] inside [executeCurrentPlan] (the 50 ms pause), which
    is reached exactly when a plan that is not a chat answer was shown. *)
Definition handleSubmit_resolved (thinkingMsg : nat) (result : PlannerReply)
    (st : State) : State :=
  let st := removeThinkingIndicator thinkingMsg st in
  if shouldStop st then setProcessing false st
  else if p_success result then
    match p_plan result with
    | Some ((first :: _) as plan) =>
        let st := set_currentPlan (Some plan) st in
        if bool_decide (length plan = 1) && bool_decide (action first = "chat") then
          setProcessing false
            (addMessage "success" "Agent"
               (string_of_json (or_else (assoc "message" (args first)) (JStr "Hello!")))
               None st)
        else
          addMessage "plan" "Plan" (planDescription plan) None st
    | _ =>
        setProcessing false
          (addMessage "error" "Error" "Failed to create plan. Try rephrasing." None st)
    end
  else
    setProcessing false
      (addMessage "error" "Error" (str_or (p_error result) "Processing failed.") None st).

Definition handleSubmit_rejected (thinkingMsg : nat) (message : string)
    (st : State) : State :=
  setProcessing false
    (addMessage "error" "Error" (str_or (Some message) "Backend error.") None
       (removeThinkingIndicator thinkingMsg st)).

(** Does [handleSubmit_resolved] go on to [executeCurrentPlan]? *)
Definition auto_executes (result : PlannerReply) (st : State) : bool :=
  negb (shouldStop st) && p_success result
  && match p_plan result with
     | Some ((first :: _) as plan) =>
         negb (bool_decide (length plan = 1) && bool_decide (action first = "chat"))
     | _ => false
     end.

(** [executeCurrentPlan] after the pause: the call of [approvePlan]. *)
Definition executeCurrentPlan_dispatch (st : State) : State :=
  invoke (approvePlan (currentPlan st)) st.

(** The results of a reply enter the window: each [output] becomes an
    object graph of its own in the heap. *)
Fixpoint receive (results : list WireResult) (h : heap) : list ExecResult * heap :=
  match results with
  | [] => ([], h)
  | w :: rest =>
      let '(v, h1) := match w_output w with
                      | Some j => alloc j h
                      | None => (VUndefined, h)
                      end in
      let '(rs, h2) := receive rest h1 in
      ({| r_action := w_action w; status := w_status w; output := v;
          error := w_error w |} :: rs, h2)
  end.

Definition is_reformattable (name : string) : bool :=
  bool_decide (name = "get_top_processes_by_memory")
  || bool_decide (name = "run_python_code").

Definition has_error (r : ExecResult) : bool :=
  match error r with
  | Some e => negb (bool_decide (e = ""))
  | None => false
  end.

(** The body of [result.results.forEach((r, index) => ...)]; the state of
    the loop is [lastResult], [outputText] and [errorText]. *)
Definition forEach_body (h : heap) (totalCount index : nat) (r : ExecResult)
    (acc : option ExecResult * string * string) : option ExecResult * string * string :=
  let '(last, outputText, errorText) := acc in
  if bool_decide (status r = "success") && truthy_value (output r) then
    (if is_reformattable (r_action r) then Some r else last,
     outputText
     +:+ (if typeof_object (output r) then
            if is_reformattable (r_action r) then formatSystemInfo h (output r)
            else JSON_stringify_pretty h (output r)
          else string_of_value (output r))
     +:+ (if bool_decide (index < totalCount - 1) then nl +:+ nl else ""),
     errorText)
  else if bool_decide (status r = "error") && has_error r then
    (last, outputText,
     errorText +:+ cross_mark +:+ " " +:+ r_action r +:+ ": "
     +:+ default "" (error r) +:+ nl)
  else acc.

Fixpoint forEach_result (h : heap) (totalCount index : nat) (results : list ExecResult)
    (acc : option ExecResult * string * string) : option ExecResult * string * string :=
  match results with
  | [] => acc
  | r :: rest => forEach_result h totalCount (S index) rest (forEach_body h totalCount index r acc)
  end.

Definition successCount (results : list ExecResult) : nat :=
  length (filter (fun r => status r = "success") results).

Definition or_text (text fallback : string) : string :=
  if bool_decide (text = "") then fallback else text.

Definition failure_tail (outputText errorText : string) : string :=
  (if bool_decide (errorText = "") then "" else "Errors:" +:+ nl +:+ errorText +:+ nl)
  +:+ (if bool_decide (outputText = "") then ""
       else nl +:+ "Successful outputs:" +:+ nl +:+ outputText).

(** The message of [executeCurrentPlan] for a reply with [success]. *)
Definition report (results : list ExecResult) (outputText errorText : string)
  : string * string :=
  let totalCount := length results in
  if bool_decide (successCount results = totalCount) then
    ("success",
     or_text outputText ("All " +:+ pretty totalCount +:+ " action(s) completed successfully!"))
  else
    ("warning",
     "Completed " +:+ pretty (successCount results) +:+ "/" +:+ pretty totalCount
     +:+ " actions (" +:+ pretty (totalCount - successCount results) +:+ " failed)"
     +:+ nl +:+ nl +:+ failure_tail outputText errorText).

(** The same for [window.approvePlan]. *)
Definition report_legacy (results : list ExecResult) (outputText errorText : string)
  : string * string :=
  let totalCount := length results in
  let counts := "(" +:+ pretty (successCount results) +:+ "/" +:+ pretty totalCount +:+ ")" in
  if bool_decide (successCount results = totalCount) then
    ("success", or_text outputText ("Completed " +:+ counts))
  else
    ("warning",
     "Completed with issues " +:+ counts +:+ nl +:+ nl +:+ failure_tail outputText errorText).

(** The [finally] block of both executions. *)
Definition finally (st : State) : State :=
  setProcessing false (set_currentPlan None st).

(** [executeCurrentPlan] from the moment the promise of [approvePlan]
    settles. *)
Definition executeCurrentPlan_settled (outcome : settled ExecReply) (st : State) : State :=
  match outcome with
  | Resolved result =>
      let '(results, h) := receive (e_results result) (heap_of st) in
      let st := set_heap h st in
      if shouldStop st then finally (setProcessing false st)
      else if e_success result then
        let '(last, outputText, errorText) :=
          forEach_result h (length results) 0 results (lastResult st, "", "") in
        let st := set_lastResult last st in
        let '(type, content) := report results outputText errorText in
        finally (addMessage type "Done" content None st)
      else
        finally (addMessage "error" "Failed" (str_or (e_error result) "Execution error.") None st)
  | Rejected message =>
      finally (addMessage "error" "Error" (str_or (Some message) "Execution failed.") None st)
  end.

(** [window.approvePlan], kept in the source for compatibility: up to its
    [await], and from there. *)
Definition window_approvePlan (st : State) : State :=
  if negb (bool_decide (is_Some (currentPlan st))) || isProcessing st then st
  else
    invoke (approvePlan (currentPlan st))
      (addMessage "info" "Executing" "Running..." None (setProcessing true st)).

Definition window_approvePlan_settled (outcome : settled ExecReply) (st : State) : State :=
  match outcome with
  | Resolved result =>
      let '(results, h) := receive (e_results result) (heap_of st) in
      let st := set_heap h st in
      if e_success result then
        let '(last, outputText, errorText) :=
          forEach_result h (length results) 0 results (lastResult st, "", "") in
        let st := set_lastResult last st in
        let '(type, content) := report_legacy results outputText errorText in
        finally (addMessage type "Done" content
                   (Some {| data_plan := None; data_results := Some results |}) st)
      else
        finally (addMessage "error" "Failed" (str_or (e_error result) "Execution error.") None st)
  | Rejected message =>
      finally (addMessage "error" "Error" (str_or (Some message) "Execution failed.") None st)
  end.

Definition window_rejectPlan (st : State) : State :=
  addMessage "warning" "Cancelled" "Action cancelled." None (set_currentPlan None st).

(** *** Help and logs *)

Definition list_open : string := "<ul style=" +:+ q "margin: 5px 0 10px 20px;" +:+ ">".

Definition helpContent (help : list HelpSection) : string :=
  "<div style=" +:+ q "font-size: 14px;" +:+ ">"
  +:+ String.concat ""
        (map (fun section =>
                "<strong>" +:+ h_title section +:+ ":</strong>" +:+ list_open
                +:+ String.concat ""
                      (map (fun example => "<li>" +:+ q example +:+ "</li>") (h_examples section))
                +:+ "</ul>") help)
  +:+ "</div>"
  +:+ "<div style=" +:+ q "margin-top: 10px;" +:+ "><strong>Special Commands:</strong></div>"
  +:+ list_open
  +:+ "<li>Click " +:+ q "Help" +:+ " to show this message</li>"
  +:+ "<li>Click " +:+ q "View Logs" +:+ " to see recent actions</li>"
  +:+ "<li>Click " +:+ q "Clear" +:+ " to clear the output</li>"
  +:+ "</ul>".

Definition handleHelp (st : State) : State := invoke getHelp st.

Definition handleHelp_settled (outcome : settled HelpReply) (st : State) : State :=
  match outcome with
  | Resolved result =>
      if hr_success result then addMessage "info" "Help" (helpContent (hr_help result)) None st
      else st
  | Rejected _ => addMessage "error" "Error" "Failed to load help information." None st
  end.

Definition logsContent (logs : list LogEntry) : string :=
  "<div class=" +:+ q "action-plan" +:+ ">"
  +:+ String.concat ""
        (map (fun log =>
                "<div class=" +:+ q "action-item" +:+ " style="
                +:+ q ("border-left-color: "
                       +:+ (if bool_decide (log_status log = "success")
                            then "#4CAF50" else "#f44336")) +:+ ">"
                +:+ "<div class=" +:+ q "action-name" +:+ ">" +:+ log_action log +:+ "</div>"
                +:+ "<div class=" +:+ q "action-args" +:+ ">"
                +:+ "Time: " +:+ log_timestamp log +:+ "<br>"
                +:+ "Status: " +:+ log_status log
                +:+ (match log_error log with
                     | Some e => if bool_decide (e = "") then "" else "<br>Error: " +:+ e
                     | None => ""
                     end)
                +:+ "</div></div>") logs)
  +:+ "</div>".

Definition handleViewLogs (st : State) : State :=
  invoke (viewLogs 10)
    (addMessage "info" "Loading" "Loading logs..." None (setProcessing true st)).

Definition handleViewLogs_settled (outcome : settled LogsReply) (st : State) : State :=
  setProcessing false
    match outcome with
    | Resolved result =>
        match l_logs result with
        | Some ((_ :: _) as logs) =>
            if l_success result then addMessage "info" "Recent Logs" (logsContent logs) None st
            else addMessage "warning" "No Logs" "No logs found." None st
        | _ => addMessage "warning" "No Logs" "No logs found." None st
        end
    | Rejected _ => addMessage "error" "Error" "Failed to load logs." None st
    end.

(** *** The window as a state machine

    An event is a listener being called or a promise settling.  The values
    that the environment supplies travel with the event: the text of the
    input box, the value of [generateId()], the answer to [confirm(...)],
    the reply of the backend. *)
Inductive Event : Type :=
| SendClick (input : string)                 (* also the Enter key *)
| StopClick
| ClearClick
| HelpClick
| LogsClick
| NewChatClick (fresh : string)
| ClearHistoryClick (confirmed : bool) (fresh : string)
| DeleteChatClick (conversationId fresh : string)
| ChatClick (conversationId : string)
| PlannerSettled (thinkingMsg : nat) (outcome : settled PlannerReply)
| PauseElapsed
| ExecutionSettled (outcome : settled ExecReply)
| ApproveCalled                              (* [window.approvePlan()] *)
| ApproveSettled (outcome : settled ExecReply)
| RejectCalled                               (* [window.rejectPlan()] *)
| HelpSettled (outcome : settled HelpReply)
| LogsSettled (outcome : settled LogsReply).

Definition step (st : State) (e : Event) : State :=
  match e with
  | SendClick input => handleSubmit input st
  | StopClick => handleStop st
  | ClearClick => handleClear st
  | HelpClick => handleHelp st
  | LogsClick => handleViewLogs st
  | NewChatClick fresh => createNewConversation fresh st
  | ClearHistoryClick confirmed fresh => clearHistory confirmed fresh st
  | DeleteChatClick conversationId fresh => deleteConversation conversationId fresh st
  | ChatClick conversationId =>
      if bool_decide (Some conversationId <> currentConversationId st)
      then loadConversation conversationId st else st
  | PlannerSettled thinkingMsg (Resolved result) => handleSubmit_resolved thinkingMsg result st
  | PlannerSettled thinkingMsg (Rejected message) => handleSubmit_rejected thinkingMsg message st
  | PauseElapsed => executeCurrentPlan_dispatch st
  | ExecutionSettled outcome => executeCurrentPlan_settled outcome st
  | ApproveCalled => window_approvePlan st
  | ApproveSettled outcome => window_approvePlan_settled outcome st
  | RejectCalled => window_rejectPlan st
  | HelpSettled outcome => handleHelp_settled outcome st
  | LogsSettled outcome => handleViewLogs_settled outcome st
  end.

Definition run (st : State) (events : list Event) : State := foldl step st events.

(** The window once the script has run: [loadConversations()] is its only
    statement with an effect. *)
Definition start (stored : option (list Conversation)) (fresh : string) : State :=
  loadConversations fresh (script_start stored).

End window.
End Renderer.

(** ** The backend contract *)

Module Backend.
Import Js Renderer.

(** Modelled from the spec: the record kept per attempt by the audit log
    ([logger.py] is not part of the sources at hand), with the fields an
    audit query returns: [{action, timestamp, status, error?}]. *)
Record AuditRecord : Type := {
  timestamp : Z;
  action_name : string;
  audit_status : string;
  audit_error : option string;
}.

Definition newer_first (a b : AuditRecord) : Prop := (timestamp b <= timestamp a)%Z.

#[global] Instance newer_first_dec a b : Decision (newer_first a b).
Proof. unfold newer_first. apply _. Defined.

(** Modelled from the spec: [AuditSink.recent(n)], "at most [n] most recent
    records, newest first" -- the query
    [SELECT * FROM actions ORDER BY timestamp DESC LIMIT n] of the README,
    over the table of records in any order. *)
Definition recent (n : nat) (log : list AuditRecord) : list AuditRecord :=
  take n (merge_sort newer_first log).

(** The audit query as the window reaches it: the ['view-logs'] handler of
    main.js passes [limit || 10] on the command line of
    [api_wrapper.py --get-logs] and hands back what the backend prints. *)
Definition view_logs (limit : option Z) (log : list AuditRecord) : list AuditRecord :=
  recent (Z.to_nat (Main.limit_or_default limit)) log.

(** Modelled from the spec: how one action ends -- with an output, or with
    one of the action-scoped errors of the taxonomy. *)
Inductive Outcome : Type :=
| Succeeded (output : option json)
| Failed (error : string).

(** Modelled from the spec: the ExecutionResult of an action, "[status =
    success] iff [error] absent", in the shape in which it is sent to the
    window. *)
Definition result_of (a : Action) (o : Outcome) : WireResult :=
  match o with
  | Succeeded out =>
      {| w_action := action a; w_status := "success"; w_output := out; w_error := None |}
  | Failed e =>
      {| w_action := action a; w_status := "error"; w_output := None; w_error := Some e |}
  end.

Definition audit_record (now : Z) (r : WireResult) : AuditRecord :=
  {| timestamp := now; action_name := w_action r; audit_status := w_status r;
     audit_error := w_error r |}.

Section executor.
(** The machine the actions act on, the effect of one action on it (direct
    execution, the elevator or the layer resolver, as the action requires)
    and its clock. *)
Context {W : Type} (perform : W -> Action -> Outcome * W) (clock : W -> Z).

(** Modelled from the spec: [execute(plan, cancel_signal)] of the
    ActionExecutor ([executor.py] is not part of the sources at hand).
    Actions run strictly in order; before each one the cancel signal is
    consulted -- here a function of the number of actions already done --
    and if it is set the run returns the results so far, tagged as
    stopped; a failing action yields an error result and the run goes on.
    Every result is appended to the audit log. *)
Fixpoint execute (cancel_signal : nat -> bool) (completed : nat) (os : W) (plan : Plan)
  : list WireResult * list AuditRecord * bool :=
  match plan with
  | [] => ([], [], false)
  | a :: rest =>
      if cancel_signal completed then ([], [], true)
      else
        let '(o, os') := perform os a in
        let r := result_of a o in
        let '(results, audit, stopped) := execute cancel_signal (S completed) os' rest in
        (r :: results, audit_record (clock os) r :: audit, stopped)
  end.

(** The two lists a run leaves: its results and its audit records. *)
Definition results_of (cancel_signal : nat -> bool) (completed : nat) (os : W) (plan : Plan)
  : list WireResult := (execute cancel_signal completed os plan).1.1.

Definition audit_of (cancel_signal : nat -> bool) (completed : nat) (os : W) (plan : Plan)
  : list AuditRecord := (execute cancel_signal completed os plan).1.2.

(** Modelled from the spec: [aggregate(results)]. *)
Definition success_count (results : list WireResult) : nat :=
  length (filter (fun r => w_status r = "success") results).

Definition aggregate (results : list WireResult) : nat * nat * list WireResult :=
  (success_count results, length results, results).

End executor.
End Backend.

(** ** The window together with the executor

    The executor runs a plan one action at a time while the window keeps
    receiving events.  The only things that travel from the window to the
    backend are the calls of [electronAPI]; ['approve-plan'] starts a child
    process with the plan on its standard input, which main.js closes at
    once. *)

Module System.
Import Js Renderer Backend.

(** A running [api_wrapper.py --execute-plan]. *)
Record Execution : Type := {
  todo : Plan;
  produced : list WireResult;
  cancel_signal : bool;
  stopped : bool;
}.

Record World (W : Type) : Type := {
  window : State;
  executions : list Execution;
  audit_log : list AuditRecord;
  os : W;
}.
Arguments window {W} _.
Arguments executions {W} _.
Arguments audit_log {W} _.
Arguments os {W} _.

Inductive Event : Type :=
| Window (e : Renderer.Event)
| ExecutorStep (child : nat)
| ExecutorClose (child : nat).

Section system.
Context `{Host} `{Layout}.
Context {W : Type} (perform : W -> Action -> Outcome * W) (clock : W -> Z).

(** What a call of the window starts in the backend: ['approve-plan'] with
    a plan starts an execution of that plan, its cancel signal clear; no
    call carries a cancel signal (see [Renderer.channel]); the other calls
    run no action. *)
Definition deliver (w : World W) (c : Call) : World W :=
  match c with
  | approvePlan (Some plan) =>
      {| window := window w;
         executions := executions w
                       ++ [{| todo := plan; produced := []; cancel_signal := false;
                              stopped := false |}];
         audit_log := audit_log w; os := os w |}
  | _ => w
  end.

Definition window_step (w : World W) (e : Renderer.Event) : World W :=
  let st := Renderer.step (window w) e in
  foldl deliver
    {| window := st; executions := executions w; audit_log := audit_log w; os := os w |}
    (drop (length (invoked (window w))) (invoked st)).

(** Modelled from the spec: one turn of the executor's loop, as in
    [Backend.execute]. *)
Definition executor_step (w : World W) (child : nat) : World W :=
  match executions w !! child with
  | Some ex =>
      match todo ex with
      | [] => w
      | a :: rest =>
          if cancel_signal ex then
            {| window := window w;
               executions := <[child := {| todo := []; produced := produced ex;
                                           cancel_signal := cancel_signal ex;
                                           stopped := true |}]> (executions w);
               audit_log := audit_log w; os := os w |}
          else
            let '(o, os') := perform (os w) a in
            let r := result_of a o in
            {| window := window w;
               executions := <[child := {| todo := rest; produced := produced ex ++ [r];
                                           cancel_signal := cancel_signal ex;
                                           stopped := stopped ex |}]> (executions w);
               audit_log := audit_log w ++ [audit_record (clock (os w)) r];
               os := os' |}
      end
  | None => w
  end.

(** The child has printed its results and closes; the promise of
    [approvePlan] resolves in the window. *)
Definition executor_close (w : World W) (child : nat) : World W :=
  match executions w !! child with
  | Some ex =>
      match todo ex with
      | [] =>
          window_step w
            (ExecutionSettled
               (Resolved {| e_success := true; e_results := produced ex; e_error := None |}))
      | _ :: _ => w
      end
  | None => w
  end.

Definition step (w : World W) (e : Event) : World W :=
  match e with
  | Window e => window_step w e
  | ExecutorStep child => executor_step w child
  | ExecutorClose child => executor_close w child
  end.

Definition run (w : World W) (events : list Event) : World W := foldl step w events.

Definition boot (stored : option (list Conversation)) (fresh : string) (os0 : W) : World W :=
  {| window := Renderer.start stored fresh; executions := []; audit_log := []; os := os0 |}.

End system.
End System.

(** ** Sample runtime

    A host for the worked examples: its JSON reader knows the two texts the
    admin probe prints, its writers print a fixed text. *)

Module Sample.
Import Js Renderer.

Definition probe_says (b : string) : string :=
  "{" +:+ q "is_admin" +:+ ": " +:+ b +:+ "}".

Definition parse_probe (text : string) : option json :=
  if bool_decide (text = probe_says "true") then Some (JObj [("is_admin", JBool true)])
  else if bool_decide (text = probe_says "false") then Some (JObj [("is_admin", JBool false)])
  else None.

Definition host : Host :=
  {| JSON_parse := parse_probe;
     JSON_stringify := string_of_json;
     JSON_stringify_pretty := fun _ v => string_of_value v |}.

Definition layout : Layout :=
  {| formatSystemInfo := fun _ v => string_of_value v |}.

(** A machine for the worked examples: its state is a clock that ticks
    once per action; [find_file] fails on it, every other action succeeds
    with its own name as output. *)
Definition perform (os : nat) (a : Action) : Backend.Outcome * nat :=
  (if bool_decide (action a = "find_file") then Backend.Failed "ActionRuntimeError"
   else Backend.Succeeded (Some (JStr (action a))),
   S os).

Definition clock (os : nat) : Z := Z.of_nat os.

Definition step_of (name : string) : Action :=
  {| action := name; args := []; risk_level := Some "low"; description := None |}.

End Sample.

(** ** Predicates used in the statements *)

Module Claims.
Import Js Renderer.

(** The side bar is well formed: there is a conversation, and the current
    one is in the list. *)
Definition conversations_ok (st : State) : Prop :=
  conversations st <> []
  /\ exists cid, currentConversationId st = Some cid /\ cid ∈ map id (conversations st).

(** What a handler may leave untouched of the side bar: the conversations
    by identifier and the current one. *)
Definition chats (st : State) : list string * option string :=
  (map id (conversations st), currentConversationId st).

(** The rest of the state. *)
Definition outside_chats (st : State)
  : option Plan * bool * bool * option ExecResult * list Node * nat * heap * list Call :=
  (currentPlan st, isProcessing st, shouldStop st, lastResult st, outputArea st,
   next_node st, heap_of st, invoked st).

(** [st'] shows one message more than [st]. *)
Definition shown (st st' : State) (type title content : string) : Prop :=
  outputArea st'
  = outputArea st ++ [{| node_id := next_node st; className := "message " +:+ type;
                         innerHTML := message_html title content None |}].

(** *** The heap *)

(** A value, an object that holds no reference below [n]: one that cannot
    reach an object that existed when the heap had [n] objects. *)
Definition fresh_value (n : nat) (v : value) : Prop :=
  match v with
  | VRef l => n <= l
  | _ => True
  end.

Definition fresh_object (n : nat) (o : object) : Prop :=
  match o with
  | OArr elems => Forall (fresh_value n) elems
  | OObj props => Forall (fun kv => fresh_value n kv.2) props
  end.

(** What [alloc] does to the heap: it appends objects, and neither the
    value it returns nor the objects it appends refer to an object that was
    there before. *)
Definition allocates (j : json) : Prop :=
  forall h, exists ext,
    (alloc j h).2 = h ++ ext
    /\ fresh_value (length h) (alloc j h).1
    /\ Forall (fresh_object (length h)) ext.

(** The nesting depth of a parsed text, and the text with repeated member
    names resolved as [JSON.parse] resolves them. *)
Fixpoint depth (j : json) : nat :=
  match j with
  | JArr elems => S (max_list (map depth elems))
  | JObj members => S (max_list (map (fun kv => depth kv.2) members))
  | _ => 0
  end.

Fixpoint canon (j : json) : json :=
  match j with
  | JArr elems => JArr (map canon elems)
  | JObj members =>
      JObj (foldl (fun acc kv => props_set kv.1 kv.2 acc) []
              (map (fun kv => (kv.1, canon kv.2)) members))
  | _ => j
  end.

(** A value that was built from the text [j] serializes back to it, in
    any heap that still holds the objects built, with fuel for its
    depth. *)
Definition serializes_back (j : json) : Prop :=
  forall h ext fuel, depth j <= fuel ->
    serialize fuel ((alloc j h).2 ++ ext) (alloc j h).1 = Normal (Some (canon j)).

(** Every level of nesting costs an object. *)
Definition nests_in_heap (j : json) : Prop :=
  forall h, depth j + length h <= length (alloc j h).2.

(** [kv] is a property whose value serializes, by [ser], to the member
    [kj]. *)
Definition ser_to (ser : value -> completion (option json))
    (kv : string * value) (kj : string * json) : Prop :=
  kv.1 = kj.1 /\ ser kv.2 = Normal (Some kj.2).

(** *** Risk *)

Inductive Risk : Type := Low | Medium | High.

#[global] Instance Risk_eq_dec : EqDecision Risk.
Proof. solve_decision. Defined.

(** Modelled from the spec: the static [action_name -> risk] table of the
    PlanValidator ([validator.py] is not part of the sources at hand), with
    the entries of the action schema in the README. *)
Definition risk_table (name : string) : option Risk :=
  if bool_decide (name = "open_folder") then Some Low
  else if bool_decide (name = "find_file") then Some Low
  else if bool_decide (name = "list_files") then Some Low
  else if bool_decide (name = "open_file") then Some Medium
  else if bool_decide (name = "create_file") then Some Medium
  else if bool_decide (name = "send_email") then Some High
  else None.

(** The colour the page uses for a level. *)
Definition colour_of (r : Risk) : string :=
  match r with
  | Low => "#4CAF50"
  | Medium => "#ff9800"
  | High => "#f44336"
  end.

(** As the spec states it: the level shown for an action is the one of the
    table, whatever level was submitted. *)
Definition shows_table_risk : Prop :=
  forall (a : Action) (r : Risk), risk_table (action a) = Some r -> riskColor a = colour_of r.

(** A plan with other risk levels written into it. *)
Definition relevel (f : Action -> option string) (plan : Plan) : Plan :=
  map (fun a => {| action := action a; args := args a; risk_level := f a;
                   description := description a |}) plan.

Definition relevel_reply (f : Action -> option string) (result : PlannerReply) : PlannerReply :=
  {| p_success := p_success result; p_plan := relevel f <$> p_plan result;
     p_error := p_error result |}.

(** *** The approval gate *)

(** The computed risk of a plan is low when the table says so of each of
    its actions. *)
Definition computed_low (plan : Plan) : bool :=
  forallb (fun a => bool_decide (risk_table (action a) = Some Low)) plan.

(** The dispatches of plans that need an approval, and the approvals given:
    the only approval signal of the window is [window.approvePlan()]. *)
Definition needs_gate (c : Call) : bool :=
  match c with
  | approvePlan (Some plan) => negb (computed_low plan)
  | _ => false
  end.

Definition is_approval (e : Event) : bool :=
  match e with
  | ApproveCalled => true
  | _ => false
  end.

(** As the spec states it: no plan whose risk is not low reaches the
    executor without an approval signal. *)
Definition approval_gated `{Host} `{Layout} : Prop :=
  forall (stored : option (list Conversation)) (fresh : string) (events : list Event),
    length (filter (fun c => needs_gate c) (invoked (run (start stored fresh) events)))
    <= length (filter (fun e => is_approval e) events).

(** *** The report of an execution *)

(** The message shown last in the current conversation. *)
Definition last_message (st : State) : option Message :=
  match find_conversation (currentConversationId st) (conversations st) with
  | Some (_, conversation) => last (messages conversation)
  | None => None
  end.

(** As the spec states it, read generously: the response to a completed
    execution mentions the number of successes and the number of results. *)
Definition reports_counts (content : string) (results : list WireResult) : bool :=
  includes content (pretty (Backend.success_count results))
  && includes content (pretty (length results)).

Definition counts_always_reported `{Host} `{Layout} : Prop :=
  forall (st : State) (reply : ExecReply) (m : Message),
    e_success reply = true -> shouldStop st = false ->
    last_message (executeCurrentPlan_settled (Resolved reply) st) = Some m ->
    reports_counts (m_content m) (e_results reply) = true.

(** The lines of the [Errors:] section. *)
Definition error_line (r : ExecResult) : string :=
  cross_mark +:+ " " +:+ r_action r +:+ ": " +:+ default "" (error r) +:+ nl.

Definition error_lines (results : list ExecResult) : string :=
  String.concat ""
    (map error_line
       (filter (fun r => status r = "error" /\ has_error r) results)).

(** The text of the outputs: for each result with status [success] and an
    output, in order, the output as the loop of [executeCurrentPlan] prints
    it, followed by an empty line unless the result is the last of the
    list. *)
Section outputs.
Context `{Host} `{Layout}.

Definition output_piece (h : heap) (totalCount index : nat) (r : ExecResult) : string :=
  if bool_decide (status r = "success") && truthy_value (output r) then
    (if typeof_object (output r) then
       if is_reformattable (r_action r) then formatSystemInfo h (output r)
       else JSON_stringify_pretty h (output r)
     else string_of_value (output r))
    +:+ (if bool_decide (index < totalCount - 1) then nl +:+ nl else "")
  else "".

Fixpoint output_text (h : heap) (totalCount index : nat) (results : list ExecResult)
  : string :=
  match results with
  | [] => ""
  | r :: rest => output_piece h totalCount index r +:+ output_text h totalCount (S index) rest
  end.

End outputs.

(** *** Cancellation *)

(** An execution whose cancel signal was never set. *)
Definition unsignalled (ex : System.Execution) : Prop :=
  System.cancel_signal ex = false /\ System.stopped ex = false.

Section cancellation.
Context `{Host} `{Layout}.
Context {W : Type} (perform : W -> Action -> Backend.Outcome * W) (clock : W -> Z).

(** As the spec states it: once the stop button is pressed while a plan is
    being executed, the run attempts no further action and the audit log
    receives no further record. *)
Definition cancel_respected : Prop :=
  forall (stored : option (list Conversation)) (fresh : string) (os0 : W)
         (before after : list System.Event) (child : nat) (ex ex' : System.Execution),
    let w1 := System.run perform clock (System.boot stored fresh os0) before in
    let w2 := System.run perform clock (System.step perform clock w1 (System.Window StopClick))
                after in
    System.executions w1 !! child = Some ex ->
    System.todo ex <> [] ->
    System.executions w2 !! child = Some ex' ->
    System.produced ex' = System.produced ex
    /\ System.audit_log w2 = System.audit_log w1.

End cancellation.

End Claims.

(** ** Further notions used in the statements *)

Module Observations.
Import Js Renderer.

(** *** The main process *)

(** The calls whose handler starts a backend child. *)
Definition spawns (call : Main.Invoke) : bool :=
  match call with
  | Main.SubmitPrompt _ _ | Main.ApprovePlan _ | Main.ViewLogs _ => true
  | Main.GetHelp | Main.CheckAdmin => false
  end.

(** The events that are IPC invocations, and those among them that start
    a child. *)
Definition is_handle (e : Main.Event) : bool :=
  match e with
  | Main.Handle _ _ => true
  | _ => false
  end.

Definition starts_child (e : Main.Event) : bool :=
  match e with
  | Main.Handle call _ => spawns call
  | _ => false
  end.

(** The title [createWindow] gives a window when the admin status is [v]. *)
Definition title_for (v : json) : string :=
  "Desktop Automation Agent" +:+ (if truthy v then " [ADMINISTRATOR]" else "").

(** *** Conversations and the page *)

(** The stored conversations are the conversations of the window. *)
Definition synced (st : State) : Prop := localStorage st = Some (conversations st).

(** The node [addMessageToDOM] makes of a message, and the page made of the
    messages of a conversation, the first node being numbered [first]. *)
Definition node_of (index : nat) (m : Message) : Node :=
  {| node_id := index; className := "message " +:+ m_type m;
     innerHTML := message_html (m_title m) (m_content m) (m_data m) |}.

Definition page_of (first : nat) (msgs : list Message) : list Node :=
  imap (fun k m => node_of (first + k) m) msgs.

(** The title made of a first message. *)
Definition titled (firstMessage : string) : string :=
  substring 0 40 firstMessage
  +:+ (if bool_decide (40 < String.length firstMessage) then "..." else "").

(** A conversation with one message more; a user message names a
    conversation that is still called "New Chat". *)
Definition with_message (type title content : string) (data : option MessageData)
    (c : Conversation) : Conversation :=
  {| id := id c;
     title := if bool_decide (type = "user") && bool_decide (Renderer.title c = "New Chat")
              then titled content else Renderer.title c;
     messages := messages c ++ [{| m_type := type; m_title := title; m_content := content;
                                   m_data := data |}] |}.

(** *** Formatting requests *)

(** A pattern that cannot tell a letter from its lower-case form. *)
Fixpoint case_blind (r : regex) : Prop :=
  match r with
  | Void | Eps => True
  | Class p => forall c, p (lower c) = p c
  | Seq r1 r2 | Alt r1 r2 => case_blind r1 /\ case_blind r2
  | Star r1 => case_blind r1
  end.

#[global] Instance value_eq_dec : EqDecision value.
Proof. solve_decision. Defined.

(** An object without the properties named in [fields]. *)
Definition strip (fields : list string) (o : object) : object :=
  match o with
  | OObj props => OObj (filter (fun kv => kv.1 ∉ fields) props)
  | OArr elems => OArr elems
  end.

(** A value on which [delete v[key]] does not throw. *)
Definition deletable (v : value) : Prop := v <> VNull /\ v <> VUndefined.

(** The fields [extractExcludeFields] can name. *)
Definition process_fields : list string := ["pid"; "memory_percent"; "memory_mb"].

(** A string of ASCII characters; on these the byte-wise [toLowerCase],
    [trim] and patterns are those of JavaScript. *)
Fixpoint ascii_only (s : string) : bool :=
  match s with
  | EmptyString => true
  | String c rest => bool_decide (nat_of_ascii c < 128) && ascii_only rest
  end.

(** *** The plan pipeline *)

(** The variables of the plan pipeline, with the heap and the calls made. *)
Definition pipeline_vars (st : State)
  : option Plan * bool * bool * option ExecResult * heap * list Call :=
  (currentPlan st, isProcessing st, shouldStop st, lastResult st, heap_of st, invoked st).

(** The events of the side bar. *)
Definition is_chat_event (e : Event) : bool :=
  match e with
  | NewChatClick _ | ClearHistoryClick _ _ | DeleteChatClick _ _ | ChatClick _ => true
  | _ => false
  end.

(** [conversation ? conversation.messages : []] for the current
    conversation. *)
Definition conversationHistory (st : State) : list Message :=
  match find_conversation (currentConversationId st) (conversations st) with
  | Some (_, conversation) => messages conversation
  | None => []
  end.

(** A result that the loop over the results keeps as [lastResult]. *)
Definition storable (r : ExecResult) : bool :=
  bool_decide (status r = "success") && truthy_value (output r)
  && is_reformattable (r_action r).

(** [lastResult] after the loop: the last result that is kept, or what it
    was before. *)
Definition stored_after (results : list ExecResult) (before : option ExecResult)
  : option ExecResult :=
  match last (filter (fun r => storable r = true) results) with
  | Some r => Some r
  | None => before
  end.

(** *** What is kept of a conversation *)

(** The conversation [c'] is [c] some messages later: the same identifier,
    the messages of [c] followed by the new ones. *)
Definition continues (c c' : Conversation) : Prop :=
  id c = id c' /\ messages c `prefix_of` messages c'.

(** The conversations [l'] are those of [l], each continued and in the same
    order, after the conversations made since. *)
Definition keeps (l l' : list Conversation) : Prop :=
  exists added rest, l' = added ++ rest /\ Forall2 continues l rest.

(** The events by which the user deletes conversations. *)
Definition is_removal (e : Event) : bool :=
  match e with
  | ClearHistoryClick confirmed _ => confirmed
  | DeleteChatClick _ _ => true
  | _ => false
  end.

(** *** The calls of the window *)

(** The events at which the window may call the main process: the clicks
    on Send, Help and View Logs, the end of the pause before an execution,
    and [window.approvePlan()]. *)
Definition may_call (e : Event) : bool :=
  match e with
  | SendClick _ | HelpClick | LogsClick | PauseElapsed | ApproveCalled => true
  | _ => false
  end.

(** The channels an event may use. *)
Definition channels_of (e : Event) : list string :=
  match e with
  | SendClick _ => ["submit-prompt"]
  | HelpClick => ["get-help"]
  | LogsClick => ["view-logs"]
  | PauseElapsed | ApproveCalled => ["approve-plan"]
  | _ => []
  end.

End Observations.

(** * Properties *)

(** ** The admin status (main.js) *)

Module MainFacts.
Import Js Main.

Section facts.
Context `{Host}.

Lemma checkAdminStatus_resolves (platform : string) (probe : ChildExit) :
  exists v, checkAdminStatus platform probe = Resolved v.
Proof.
  unfold checkAdminStatus.
  repeat case_match; eauto.
Qed.

Lemma createWindow_admin (st : State) :
  isRunningAsAdmin (createWindow st) = isRunningAsAdmin st
  /\ admin_checks (createWindow st) = admin_checks st.
Proof. done. Qed.

(** No event after start-up writes [isRunningAsAdmin] or runs the probe,
    and the ['check-admin'] handler answers with the variable. *)
Lemma step_admin (st : State) (e : Event) :
  isRunningAsAdmin (step st e).1 = isRunningAsAdmin st
  /\ admin_checks (step st e).1 = admin_checks st
  /\ forall r v, (step st e).2 = Some r -> is_admin_reply r = Some v ->
                 v = isRunningAsAdmin st.
Proof.
  destruct e as [n| |p| |call child]; simpl.
  - case_bool_decide; simpl; split_and!; auto; discriminate.
  - split_and!; auto; discriminate.
  - split_and!; auto; discriminate.
  - split_and!; auto; discriminate.
  - destruct call; simpl; split_and!; auto;
      intros r v [= <-]; simpl; try discriminate.
    + unfold settle; case_match; discriminate.
    + unfold settle; case_match; discriminate.
    + unfold settle; case_match; discriminate.
    + by intros [= <-].
Qed.

Lemma run_admin (events : list Event) (st : State) :
  isRunningAsAdmin (run st events).1 = isRunningAsAdmin st
  /\ admin_checks (run st events).1 = admin_checks st
  /\ Forall (fun r => forall v, is_admin_reply r = Some v -> v = isRunningAsAdmin st)
       (run st events).2.
Proof.
  revert st. induction events as [|e events IH]; intros st; simpl.
  { split_and!; auto. }
  destruct (step st e) as [st1 r] eqn:Hstep.
  destruct (step_admin st e) as (Ha & Hc & Hr). rewrite Hstep in Ha, Hc, Hr. simpl in *.
  destruct (IH st1) as (Ha' & Hc' & Hr').
  destruct (run st1 events) as [st2 rs] eqn:Hrun. simpl in *.
  split_and!; [congruence | congruence |].
  assert (Forall (fun r => forall v, is_admin_reply r = Some v -> v = isRunningAsAdmin st) rs)
    as Hrs.
  { eapply Forall_impl; [exact Hr'|]. simpl. intros x Hx v Hv. rewrite <- Ha. auto. }
  destruct r as [x|]; [constructor; eauto | exact Hrs].
Qed.

(** C4.  The admin status is computed by one run of [checkAdminStatus] when
    the application becomes ready; whatever happens afterwards (windows
    opened and closed, any IPC call), the variable keeps that value, the
    probe is not run again, and every ['check-admin'] reply, during the run
    and after it, carries that value. *)
Theorem admin_status_cached (platform : string) (probe : ChildExit) (events : list Event) :
  let st0 := whenReady platform probe in
  let st := (run st0 events).1 in
  checkAdminStatus platform probe = Resolved (isRunningAsAdmin st0)
  /\ isRunningAsAdmin st = isRunningAsAdmin st0
  /\ admin_checks st = 1
  /\ Forall (fun r => forall v, is_admin_reply r = Some v -> v = isRunningAsAdmin st0)
       (run st0 events).2
  /\ forall child, (handle CheckAdmin child st).2 = AdminReply (isRunningAsAdmin st0).
Proof.
  intros st0 st.
  assert (checkAdminStatus platform probe = Resolved (isRunningAsAdmin st0)
          /\ admin_checks st0 = 1) as [H0 H1].
  { subst st0. unfold whenReady.
    destruct (checkAdminStatus_resolves platform probe) as [v ->]. done. }
  destruct (run_admin events st0) as (Ha & Hc & Hr).
  subst st. split_and!; auto; [congruence|].
  intros child. simpl. by rewrite Ha.
Qed.

(** C8.  The probe fails safe: off Windows, on an exit code other than 0
    (or none), and on output that does not parse, [checkAdminStatus]
    resolves -- it has no rejecting path -- and resolves to [false]. *)
Theorem checkAdminStatus_fails_safe (platform : string) (probe : ChildExit) :
  platform <> "win32" \/ code probe <> Some 0%Z \/ JSON_parse (dataString probe) = None ->
  checkAdminStatus platform probe = Resolved (JBool false).
Proof.
  intros Hfail. unfold checkAdminStatus.
  case_bool_decide as Hp; [|done].
  case_bool_decide as Hc; [|done].
  destruct Hfail as [?|[?|Hparse]]; [done|done|by rewrite Hparse].
Qed.

End facts.

(** A Linux host, a probe that exits with 1, and a probe that prints
    garbage: each resolves to [false]. *)
Lemma checkAdminStatus_fails_safe_witness :
  let garbage := {| code := Some 0%Z; dataString := "Traceback"; errorString := "" |} in
  ("win32" <> "win32" \/ code garbage <> Some 0%Z
   \/ @JSON_parse Sample.host (dataString garbage) = None)
  /\ @checkAdminStatus Sample.host "win32" garbage = Resolved (JBool false).
Proof.
  intros garbage.
  assert ("win32" <> "win32" \/ code garbage <> Some 0%Z
          \/ @JSON_parse Sample.host (dataString garbage) = None) as Hyp.
  { right. right. reflexivity. }
  split; [exact Hyp|].
  exact (@checkAdminStatus_fails_safe Sample.host "win32" garbage Hyp).
Defined.

End MainFacts.

(** ** The conversations of the side bar (renderer.js) *)

Module ConversationFacts.
Import Js Renderer Claims.

Section facts.
Context `{Host} `{Layout}.

Lemma find_conversation_Some (cid : option string) (l : list Conversation) i c :
  find_conversation cid l = Some (i, c) ->
  l !! i = Some c /\ cid = Some (id c).
Proof.
  destruct cid as [x|]; simpl; [|done].
  intros (Hl & Hid & _)%list_find_Some. by subst.
Qed.

Lemma map_id_insert (l : list Conversation) i c c' :
  l !! i = Some c -> id c' = id c -> map id (<[i := c']> l) = map id l.
Proof.
  intros Hl Hid. change (id <$> <[i:=c']> l = id <$> l).
  rewrite list_fmap_insert, Hid. apply list_insert_id.
  by rewrite list_lookup_fmap, Hl.
Qed.

Lemma chats_appendChild class html st : chats (appendChild class html st) = chats st.
Proof. done. Qed.

Lemma chats_addMessageToDOM type title content data st :
  chats (addMessageToDOM type title content data st) = chats st.
Proof. done. Qed.

Lemma chats_updateConversationTitle cid firstMessage st :
  chats (updateConversationTitle cid firstMessage st) = chats st.
Proof.
  unfold updateConversationTitle.
  destruct (find_conversation cid (conversations st)) as [[i c]|] eqn:Hfind; [|done].
  apply find_conversation_Some in Hfind as [Hl _].
  case_bool_decide; [|done].
  unfold chats; simpl. by erewrite map_id_insert.
Qed.

Lemma chats_saveMessageToConversation type title content data st :
  chats (saveMessageToConversation type title content data st) = chats st.
Proof.
  unfold saveMessageToConversation.
  destruct (find_conversation _ (conversations st)) as [[i c]|] eqn:Hfind; [|done].
  apply find_conversation_Some in Hfind as [Hl _].
  assert (forall st', chats (saveConversations st') = chats st') as Hsave by done.
  rewrite Hsave.
  case_match; rewrite ?chats_updateConversationTitle;
    unfold chats; simpl; by erewrite map_id_insert.
Qed.

Lemma chats_addMessage type title content data st :
  chats (addMessage type title content data st) = chats st.
Proof.
  unfold addMessage.
  by rewrite chats_saveMessageToConversation, chats_addMessageToDOM.
Qed.

Lemma chats_setProcessing b st : chats (setProcessing b st) = chats st.
Proof. done. Qed.

Lemma chats_finally st : chats (finally st) = chats st.
Proof. done. Qed.

Lemma chats_submit_to_backend prompt st : chats (submit_to_backend prompt st) = chats st.
Proof. done. Qed.

Lemma chats_set_heap h st : chats (set_heap h st) = chats st.
Proof. done. Qed.

Lemma chats_set_lastResult r st : chats (set_lastResult r st) = chats st.
Proof. done. Qed.

Lemma chats_set_currentPlan p st : chats (set_currentPlan p st) = chats st.
Proof. done. Qed.

Lemma chats_set_flags a b st : chats (set_flags a b st) = chats st.
Proof. done. Qed.

Lemma chats_invoke c st : chats (invoke c st) = chats st.
Proof. done. Qed.

Lemma chats_removeThinkingIndicator n st : chats (removeThinkingIndicator n st) = chats st.
Proof. done. Qed.

Lemma chats_set_outputArea a st : chats (set_outputArea a st) = chats st.
Proof. done. Qed.

Create Rewrite HintDb chats.
#[local] Hint Rewrite chats_addMessage chats_setProcessing chats_finally chats_submit_to_backend
  chats_set_heap chats_set_lastResult chats_set_currentPlan chats_set_flags chats_invoke
  chats_removeThinkingIndicator chats_set_outputArea chats_addMessageToDOM : chats.

(** The handlers of the plan pipeline, of help and of the logs leave the
    side bar as it is. *)
Ltac keeps_chats :=
  repeat (autorewrite with chats; try done; case_match).

Lemma chats_handleSubmit input st : chats (handleSubmit input st) = chats st.
Proof. unfold handleSubmit. keeps_chats. Qed.

Lemma chats_handleSubmit_resolved n result st :
  chats (handleSubmit_resolved n result st) = chats st.
Proof. unfold handleSubmit_resolved. keeps_chats. Qed.

Lemma chats_executeCurrentPlan_settled outcome st :
  chats (executeCurrentPlan_settled outcome st) = chats st.
Proof. unfold executeCurrentPlan_settled. keeps_chats. Qed.

Lemma chats_window_approvePlan_settled outcome st :
  chats (window_approvePlan_settled outcome st) = chats st.
Proof. unfold window_approvePlan_settled. keeps_chats. Qed.

Lemma chats_handleViewLogs_settled outcome st :
  chats (handleViewLogs_settled outcome st) = chats st.
Proof. unfold handleViewLogs_settled. keeps_chats. Qed.

Lemma conversations_ok_chats st st' :
  chats st' = chats st -> conversations_ok st -> conversations_ok st'.
Proof.
  unfold chats, conversations_ok. intros [= Hids Hcur] [Hne Hin].
  rewrite Hids, Hcur. split; [|done].
  intros Hnil. rewrite Hnil in Hids. destruct (conversations st); done.
Qed.

Lemma foldl_addMessageToDOM_chats msgs st :
  chats (foldl (fun st msg =>
                  addMessageToDOM (m_type msg) (m_title msg) (m_content msg) (m_data msg) st)
           st msgs) = chats st.
Proof. revert st. induction msgs as [|m msgs IH]; intros st; simpl; [done|]. by rewrite IH. Qed.

Lemma conversations_ok_createNewConversation fresh st :
  conversations_ok (createNewConversation fresh st).
Proof.
  split; [done|]. exists fresh. split; [done|]. simpl. apply list_elem_of_here.
Qed.

(** Loading a conversation that is in the list makes it the current one. *)
Lemma conversations_ok_loadConversation cid st :
  cid ∈ map id (conversations st) -> conversations_ok (loadConversation cid st).
Proof.
  intros Hin. unfold loadConversation.
  destruct (find_conversation (Some cid) (conversations st)) as [[i c]|] eqn:Hfind.
  - eapply conversations_ok_chats; [apply foldl_addMessageToDOM_chats|].
    split; simpl.
    + intros Hnil. rewrite Hnil in Hin. by apply elem_of_nil in Hin.
    + by exists cid.
  - exfalso. simpl in Hfind. apply list_find_None in Hfind.
    apply list_elem_of_fmap in Hin as (c & -> & Hc).
    rewrite Forall_forall in Hfind. by apply (Hfind c).
Qed.

Lemma conversations_ok_loadConversation_any cid st :
  conversations_ok st -> conversations_ok (loadConversation cid st).
Proof.
  intros Hok. unfold loadConversation.
  destruct (find_conversation (Some cid) (conversations st)) as [[i c]|] eqn:Hfind; [|done].
  fold (loadConversation cid st).
  assert (loadConversation cid st =
          foldl (fun st msg =>
                   addMessageToDOM (m_type msg) (m_title msg) (m_content msg) (m_data msg) st)
            (set_outputArea [] (set_currentConversationId (Some cid) st)) (messages c)) as <-.
  { unfold loadConversation. by rewrite Hfind. }
  apply conversations_ok_loadConversation.
  apply find_conversation_Some in Hfind as [Hl [= ->]].
  apply list_elem_of_fmap. exists c. split; [done|]. by eapply list_elem_of_lookup_2.
Qed.

Lemma conversations_ok_loadConversations fresh st : conversations_ok (loadConversations fresh st).
Proof.
  unfold loadConversations.
  destruct (conversations _) as [|first rest] eqn:Hc.
  - apply conversations_ok_createNewConversation.
  - apply conversations_ok_loadConversation. simpl. rewrite Hc. simpl. apply list_elem_of_here.
Qed.

Lemma conversations_ok_deleteConversation cid fresh st :
  conversations_ok st -> conversations_ok (deleteConversation cid fresh st).
Proof.
  intros Hok. unfold deleteConversation.
  destruct (find_conversation (Some cid) (conversations st)) as [[i c]|] eqn:Hfind; [|done].
  apply find_conversation_Some in Hfind as [Hl [= ->]].
  assert (forall st', conversations_ok st' -> conversations_ok (saveConversations st')) as Hsave
    by done.
  apply Hsave. simpl.
  case_bool_decide as Hcur.
  - destruct (delete i (conversations st)) as [|first rest] eqn:Hdel.
    + apply conversations_ok_createNewConversation.
    + apply conversations_ok_loadConversation. simpl. apply list_elem_of_here.
  - destruct Hok as [Hne (cur & Hc & Hin)]. simpl in Hcur.
    assert (cur ∈ map id (delete i (conversations st))) as Hin'.
    { apply list_elem_of_fmap in Hin as (c' & -> & Hc').
      apply list_elem_of_lookup in Hc' as [j Hj].
      assert (j <> i) as Hji.
      { intros ->. rewrite Hl in Hj. injection Hj as ->. congruence. }
      apply list_elem_of_fmap. exists c'. split; [done|].
      destruct (decide (j < i)).
      - eapply list_elem_of_lookup_2. rewrite list_lookup_delete_lt; eauto.
      - apply (list_elem_of_lookup_2 _ (j - 1)).
        rewrite list_lookup_delete_ge by lia. rewrite <- Hj. f_equal. lia. }
    split; simpl.
    + intros Hnil. rewrite Hnil in Hin'. by apply elem_of_nil in Hin'.
    + by exists cur.
Qed.

Lemma conversations_ok_step (st : State) (e : Event) :
  conversations_ok st -> conversations_ok (step st e).
Proof.
  intros Hok.
  destruct e as [input| | | | |fresh|confirmed fresh|cid fresh|cid|n [result|m]| |outcome|
                 |outcome| |outcome|outcome]; simpl.
  - eapply conversations_ok_chats; [apply chats_handleSubmit|done].
  - eapply conversations_ok_chats; [|done]. unfold handleStop. by autorewrite with chats.
  - done.
  - done.
  - eapply conversations_ok_chats; [|done]. unfold handleViewLogs. by autorewrite with chats.
  - apply conversations_ok_createNewConversation.
  - destruct confirmed; [apply conversations_ok_createNewConversation|done].
  - by apply conversations_ok_deleteConversation.
  - case_bool_decide; [by apply conversations_ok_loadConversation_any|done].
  - eapply conversations_ok_chats; [apply chats_handleSubmit_resolved|done].
  - eapply conversations_ok_chats; [|done]. unfold handleSubmit_rejected.
    by autorewrite with chats.
  - done.
  - eapply conversations_ok_chats; [apply chats_executeCurrentPlan_settled|done].
  - eapply conversations_ok_chats; [|done]. unfold window_approvePlan. keeps_chats.
  - eapply conversations_ok_chats; [apply chats_window_approvePlan_settled|done].
  - eapply conversations_ok_chats; [|done]. unfold window_rejectPlan.
    by autorewrite with chats.
  - eapply conversations_ok_chats; [|done]. unfold handleHelp_settled. keeps_chats.
  - eapply conversations_ok_chats; [apply chats_handleViewLogs_settled|done].
Qed.

(** C9.  Once the script has loaded the stored conversations -- whatever
    was stored --, and after every further event of the window (a new
    chat, the deletion of any conversation, clearing the history, and all
    others), the list of conversations is not empty and
    [currentConversationId] names a conversation of the list. *)
Theorem conversations_always_ok (stored : option (list Conversation)) (fresh : string)
    (events : list Event) :
  conversations_ok (run (start stored fresh) events).
Proof.
  unfold run.
  assert (conversations_ok (start stored fresh)) as Hstart
    by apply conversations_ok_loadConversations.
  revert Hstart. generalize (start stored fresh).
  induction events as [|e events IH]; intros st Hst; simpl; [done|].
  apply IH. by apply conversations_ok_step.
Qed.

End facts.
End ConversationFacts.

(** ** Execution results and the audit query (backend contract) *)

Module BackendFacts.
Import Js Renderer Backend.

#[local] Instance newer_first_total : Total newer_first.
Proof. intros a b. unfold newer_first. lia. Qed.

#[local] Instance newer_first_trans : Transitive newer_first.
Proof. intros a b c. unfold newer_first. lia. Qed.

Lemma recent_spec (n : nat) (log : list AuditRecord) :
  length (recent n log) = Nat.min n (length log)
  /\ StronglySorted newer_first (recent n log)
  /\ exists older, log ≡ₚ recent n log ++ older
       /\ forall x y, x ∈ recent n log -> y ∈ older -> (timestamp y <= timestamp x)%Z.
Proof.
  unfold recent.
  pose proof (StronglySorted_merge_sort newer_first log) as Hsorted.
  pose proof (merge_sort_Permutation newer_first log) as Hperm.
  rewrite <- (take_drop n (merge_sort newer_first log)) in Hsorted.
  split_and!.
  - rewrite length_take. by rewrite Hperm.
  - by eapply StronglySorted_app_1_l.
  - exists (drop n (merge_sort newer_first log)). split.
    + by rewrite take_drop.
    + intros x y Hx Hy.
      exact (StronglySorted_app_1_elem_of _ _ _ _ _ Hsorted Hx Hy).
Qed.



Section executor_facts.
Context {W : Type} (perform : W -> Action -> Outcome * W) (clock : W -> Z).

Lemma result_of_status (a : Action) (o : Outcome) :
  w_action (result_of a o) = action a
  /\ (w_status (result_of a o) = "success" <-> w_error (result_of a o) = None)
  /\ (w_status (result_of a o) = "success" \/ w_status (result_of a o) = "error").
Proof. destruct o; simpl; split_and!; auto; split; done. Qed.

Lemma execute_spec (cancel_signal : nat -> bool) (plan : Plan) (completed : nat) (os : W) :
  Forall (fun r => (w_status r = "success" <-> w_error r = None)
                   /\ (w_status r = "success" \/ w_status r = "error"))
    (results_of perform clock cancel_signal completed os plan)
  /\ map w_action (results_of perform clock cancel_signal completed os plan) `prefix_of` map action plan
  /\ map action_name (audit_of perform clock cancel_signal completed os plan)
     = map w_action (results_of perform clock cancel_signal completed os plan).
Proof.
  unfold results_of, audit_of.
  revert completed os. induction plan as [|a plan IH]; intros completed os; simpl.
  { split_and!; [constructor|done|done]. }
  destruct (cancel_signal completed); simpl.
  { split_and!; [constructor| apply prefix_nil |done]. }
  destruct (perform os a) as [o os'].
  specialize (IH (S completed) os').
  destruct (execute perform clock cancel_signal (S completed) os' plan) as [[results audit] stopped].
  simpl in *. destruct IH as (Hwf & Hpre & Haudit).
  destruct (result_of_status a o) as (Hact & Hiff & Hst).
  split_and!.
  - constructor; done.
  - rewrite Hact. by apply prefix_cons.
  - by rewrite Haudit.
Qed.

Lemma execute_all (plan : Plan) (completed : nat) (os : W) :
  map w_action (results_of perform clock (fun _ => false) completed os plan) = map action plan.
Proof.
  unfold results_of. revert completed os.
  induction plan as [|a plan IH]; intros completed os; simpl; [done|].
  destruct (perform os a) as [o os']. specialize (IH (S completed) os').
  destruct (execute perform clock (fun _ => false) (S completed) os' plan) as [[results audit] stopped].
  simpl in *. rewrite IH. by destruct o.
Qed.

Lemma receive_keeps (results : list WireResult) (h : heap) :
  map (fun r => (r_action r, status r, error r)) (receive results h).1
  = map (fun w => (w_action w, w_status w, w_error w)) results.
Proof.
  revert h. induction results as [|w results IH]; intros h; simpl; [done|].
  destruct (match w_output w with Some j => alloc j h | None => (VUndefined, h) end)
    as [v h1].
  specialize (IH h1). destruct (receive results h1) as [rs h2]. simpl in *.
  by rewrite IH.
Qed.

(** C6.  Whatever the actions do and whenever the run is cancelled, every
    result of an execution has status [success] or [error], and [success]
    exactly when it carries no error; the results name the actions of a
    prefix of the plan, in order, one each -- all of the plan when the run
    is not cancelled -- and the window receives them one for one, in the
    same order, with the same status and error. *)
Theorem execution_results_wellformed (cancel_signal : nat -> bool) (os : W) (plan : Plan)
    (h : heap) :
  let results := results_of perform clock cancel_signal 0 os plan in
  Forall (fun r => (w_status r = "success" <-> w_error r = None)
                   /\ (w_status r = "success" \/ w_status r = "error")) results
  /\ map w_action results `prefix_of` map action plan
  /\ map w_action (results_of perform clock (fun _ => false) 0 os plan) = map action plan
  /\ map (fun r => (r_action r, status r, error r)) (receive results h).1
     = map (fun w => (w_action w, w_status w, w_error w)) results.
Proof.
  intros results. subst results.
  destruct (execute_spec cancel_signal plan 0 os) as (Hwf & Hpre & _).
  split_and!; [done|done|apply execute_all|apply receive_keeps].
Qed.

End executor_facts.
End BackendFacts.

(** ** The plan pipeline of the window (renderer.js) *)

Module PipelineFacts.
Import Js Renderer Claims.

Section facts.
Context `{Host} `{Layout}.

(** Saving a message touches the conversations and nothing else. *)
Lemma outside_updateConversationTitle cid firstMessage st :
  outside_chats (updateConversationTitle cid firstMessage st) = outside_chats st.
Proof. unfold updateConversationTitle. repeat case_match; done. Qed.

Lemma outside_saveMessageToConversation type title content data st :
  outside_chats (saveMessageToConversation type title content data st) = outside_chats st.
Proof.
  unfold saveMessageToConversation. repeat case_match; try done.
  all: unfold saveConversations;
    change (outside_chats (set_localStorage ?x ?s)) with (outside_chats s);
    by rewrite ?outside_updateConversationTitle.
Qed.

Lemma outside_addMessage type title content data st :
  outside_chats (addMessage type title content data st)
  = (currentPlan st, isProcessing st, shouldStop st, lastResult st,
     outputArea st ++ [{| node_id := next_node st; className := "message " +:+ type;
                          innerHTML := message_html title content data |}],
     S (next_node st), heap_of st, invoked st).
Proof. unfold addMessage. by rewrite outside_saveMessageToConversation. Qed.

Lemma addMessage_fields type title content data st :
  let st' := addMessage type title content data st in
  currentPlan st' = currentPlan st /\ isProcessing st' = isProcessing st
  /\ shouldStop st' = shouldStop st /\ lastResult st' = lastResult st
  /\ heap_of st' = heap_of st /\ invoked st' = invoked st
  /\ next_node st' = S (next_node st)
  /\ outputArea st'
     = outputArea st ++ [{| node_id := next_node st; className := "message " +:+ type;
                            innerHTML := message_html title content data |}].
Proof.
  intros st'. pose proof (outside_addMessage type title content data st) as Heq.
  unfold outside_chats in Heq. fold st' in Heq.
  injection Heq as -> -> -> -> -> -> -> ->. done.
Qed.

(** *** Risk levels on the page *)

(** Whether a plan goes on to execution does not depend on the risk levels
    written in it. *)
Lemma auto_executes_relevel (f : Action -> option string) (result : PlannerReply)
    (st : State) :
  auto_executes (relevel_reply f result) st = auto_executes result st.
Proof.
  unfold auto_executes, relevel_reply. simpl.
  destruct (p_plan result) as [[|first rest]|]; simpl; try done.
  unfold relevel. by rewrite length_map.
Qed.


(** *** Automatic execution *)

Lemma auto_executes_inv (result : PlannerReply) (st : State) :
  auto_executes result st = true ->
  shouldStop st = false /\ p_success result = true
  /\ exists first rest, p_plan result = Some (first :: rest)
       /\ (bool_decide (length (first :: rest) = 1)
           && bool_decide (action first = "chat")) = false.
Proof.
  unfold auto_executes. intros Hauto.
  apply andb_prop in Hauto as [Hauto Hplan].
  apply andb_prop in Hauto as [Hstop Hsucc].
  apply negb_true_iff in Hstop.
  destruct (p_plan result) as [[|first rest]|]; try done.
  apply negb_true_iff in Hplan. eauto 10.
Qed.


(** *** The report of an execution *)

Lemma string_app_nil_r (s : string) : s +:+ "" = s.
Proof.
  induction s as [|c s IH]; [done|].
  change (String c (s +:+ "") = String c s). by rewrite IH.
Qed.

Lemma string_app_assoc (s1 s2 s3 : string) : (s1 +:+ s2) +:+ s3 = s1 +:+ (s2 +:+ s3).
Proof.
  induction s1 as [|c s1 IH]; [done|].
  change (String c ((s1 +:+ s2) +:+ s3) = String c (s1 +:+ (s2 +:+ s3))). by rewrite IH.
Qed.

Lemma concat_cons (x : string) (l : list string) :
  String.concat "" (x :: l) = x +:+ String.concat "" l.
Proof. destruct l; [symmetry; apply string_app_nil_r|done]. Qed.

(** The two texts of the loop: the outputs of the successful results, and
    one line for each result with status [error] and an error message, both
    in order. *)
Lemma forEach_result_texts (h : heap) (totalCount : nat) (results : list ExecResult)
    (index : nat) (last : option ExecResult) (outputText errorText : string) :
  (forEach_result h totalCount index results (last, outputText, errorText)).1.2
  = outputText +:+ output_text h totalCount index results
  /\ (forEach_result h totalCount index results (last, outputText, errorText)).2
     = errorText +:+ error_lines results.
Proof.
  revert index last outputText errorText.
  induction results as [|r results IH]; intros index last outputText errorText; simpl.
  { by rewrite !string_app_nil_r. }
  unfold error_lines, forEach_body, output_piece. rewrite filter_cons.
  destruct (bool_decide (status r = "success") && truthy_value (output r)) eqn:Hsucc.
  - destruct (IH (S index) (if is_reformattable (r_action r) then Some r else last)
                (outputText
                 +:+ (if typeof_object (output r) then
                        if is_reformattable (r_action r) then formatSystemInfo h (output r)
                        else JSON_stringify_pretty h (output r)
                      else string_of_value (output r))
                 +:+ (if bool_decide (index < totalCount - 1) then nl +:+ nl else ""))
                errorText) as [-> ->].
    apply andb_prop in Hsucc as [Hs%bool_decide_eq_true _].
    rewrite decide_False by (intros [He _]; congruence).
    by rewrite !string_app_assoc.
  - destruct (bool_decide (status r = "error") && has_error r) eqn:Herr.
    + destruct (IH (S index) last outputText
                  (errorText +:+ cross_mark +:+ " " +:+ r_action r +:+ ": "
                   +:+ default "" (error r) +:+ nl)) as [-> ->].
      apply andb_prop in Herr as [He%bool_decide_eq_true Hmsg].
      rewrite decide_True by (split; [done|by rewrite Hmsg]).
      simpl map. rewrite concat_cons. unfold error_line.
      by rewrite !string_app_assoc.
    + destruct (IH (S index) last outputText errorText) as [-> ->].
      rewrite decide_False; [done|].
      intros [He Hmsg]. apply andb_false_iff in Herr as [Hne%bool_decide_eq_false|Hno];
        [done|]. rewrite Hno in Hmsg. done.
Qed.


End facts.

Section examples.
#[local] Existing Instance Sample.host.
#[local] Existing Instance Sample.layout.



End examples.




End PipelineFacts.


(** ** Reformatting the last result (renderer.js) *)

Module ReformatFacts.
Import Js Renderer Claims.

Lemma fresh_value_mono (n m : nat) (v : value) : m <= n -> fresh_value n v -> fresh_value m v.
Proof. destruct v; simpl; lia. Qed.

Lemma fresh_object_mono (n m : nat) (o : object) :
  m <= n -> fresh_object n o -> fresh_object m o.
Proof.
  intros Hle. destruct o; simpl; intros Hf; (eapply Forall_impl; [exact Hf|]);
    simpl; intros; by eapply fresh_value_mono.
Qed.

Lemma props_set_fresh (n : nat) (key : string) (v : value) (props : list (string * value)) :
  fresh_value n v -> Forall (fun kv => fresh_value n kv.2) props ->
  Forall (fun kv => fresh_value n kv.2) (props_set key v props).
Proof.
  intros Hv. induction 1 as [|[k w] rest Hw Hrest IH]; simpl.
  - by constructor.
  - case_bool_decide; constructor; done.
Qed.

Lemma object_of_members_fresh (n : nat) (props : list (string * value)) :
  Forall (fun kv => fresh_value n kv.2) props -> fresh_object n (object_of_members props).
Proof.
  unfold object_of_members. simpl.
  assert (forall acc, Forall (fun kv => fresh_value n kv.2) acc ->
                      Forall (fun kv => fresh_value n kv.2) props ->
                      Forall (fun kv => fresh_value n kv.2)
                        (foldl (fun acc kv => props_set kv.1 kv.2 acc) acc props)) as Hfold.
  { induction props as [|[k w] rest IH]; intros acc Hacc Hprops; simpl; [done|].
    inversion Hprops; subst. apply IH; [|done]. by apply props_set_fresh. }
  intros Hprops. by apply Hfold.
Qed.

Lemma alloc_elems_allocates (elems : list json) :
  Forall allocates elems ->
  forall h, exists ext,
    (alloc_elems alloc elems h).2 = h ++ ext
    /\ Forall (fresh_value (length h)) (alloc_elems alloc elems h).1
    /\ Forall (fresh_object (length h)) ext.
Proof.
  induction 1 as [|x rest Hx Hrest IH]; intros h; simpl.
  { exists []. by rewrite app_nil_r. }
  destruct (Hx h) as (ext1 & Hh1 & Hv & Hext1).
  destruct (alloc x h) as [v h1]. simpl in *. subst h1.
  destruct (IH (h ++ ext1)) as (ext2 & Hh2 & Hvs & Hext2).
  destruct (alloc_elems alloc rest (h ++ ext1)) as [vs h2]. simpl in *. subst h2.
  exists (ext1 ++ ext2). rewrite length_app in Hvs, Hext2.
  split_and!.
  - by rewrite app_assoc.
  - constructor; [done|]. eapply Forall_impl; [done|].
    intros v'. apply fresh_value_mono. lia.
  - apply Forall_app. split; [done|]. eapply Forall_impl; [done|].
    intros o. apply fresh_object_mono. lia.
Qed.

Lemma alloc_members_allocates (members : list (string * json)) :
  Forall (fun kv => allocates kv.2) members ->
  forall h, exists ext,
    (alloc_members alloc members h).2 = h ++ ext
    /\ Forall (fun kv => fresh_value (length h) kv.2) (alloc_members alloc members h).1
    /\ Forall (fresh_object (length h)) ext.
Proof.
  induction 1 as [|[k x] rest Hx Hrest IH]; intros h; simpl.
  { exists []. by rewrite app_nil_r. }
  simpl in Hx.
  destruct (Hx h) as (ext1 & Hh1 & Hv & Hext1).
  destruct (alloc x h) as [v h1]. simpl in *. subst h1.
  destruct (IH (h ++ ext1)) as (ext2 & Hh2 & Hvs & Hext2).
  destruct (alloc_members alloc rest (h ++ ext1)) as [vs h2]. simpl in *. subst h2.
  exists (ext1 ++ ext2). rewrite length_app in Hvs, Hext2.
  split_and!.
  - by rewrite app_assoc.
  - constructor; [done|]. eapply Forall_impl; [done|].
    intros kv. apply fresh_value_mono. lia.
  - apply Forall_app. split; [done|]. eapply Forall_impl; [done|].
    intros o. apply fresh_object_mono. lia.
Qed.

Lemma alloc_allocates (j : json) : allocates j.
Proof.
  induction j as [| | | |elems IH|members IH] using json_nested_ind; intros h.
  1-4: exists []; simpl; by rewrite app_nil_r.
  - destruct (alloc_elems_allocates elems IH h) as (ext & Hh1 & Hvs & Hext).
    simpl. destruct (alloc_elems alloc elems h) as [vs h1]. simpl in *. subst h1.
    exists (ext ++ [OArr vs]). split_and!.
    + by rewrite app_assoc.
    + rewrite length_app. lia.
    + apply Forall_app. split; [done|]. by constructor.
  - destruct (alloc_members_allocates members IH h) as (ext & Hh1 & Hvs & Hext).
    simpl. destruct (alloc_members alloc members h) as [props h1]. simpl in *. subst h1.
    exists (ext ++ [object_of_members props]). split_and!.
    + by rewrite app_assoc.
    + rewrite length_app. lia.
    + apply Forall_app. split; [done|]. constructor; [|done].
      by apply object_of_members_fresh.
Qed.

Lemma delete_prop_frame (n : nat) (h : heap) (v : value) (key : string) :
  fresh_value n v -> take n (delete_prop h v key).2 = take n h.
Proof.
  destruct v as [| | | | |l]; simpl; try done.
  intros Hl. destruct (h !! l) as [[|props]|]; simpl; try done.
  by apply take_insert_ge.
Qed.

Lemma set_prop_frame (n : nat) (h : heap) (v : value) (key : string) (w : value) :
  fresh_value n v -> take n (set_prop h v key w).2 = take n h.
Proof.
  destruct v as [| | | | |l]; simpl; try done.
  intros Hl. destruct (h !! l) as [[|props]|]; simpl; try done.
  by apply take_insert_ge.
Qed.

Lemma delete_fields_frame (n : nat) (proc : value) (fields : list string) (h : heap) :
  fresh_value n proc -> take n (delete_fields h proc fields).2 = take n h.
Proof.
  intros Hproc. revert h. induction fields as [|field rest IH]; intros h; simpl; [done|].
  pose proof (delete_prop_frame n h proc field Hproc) as Hdel.
  destruct (delete_prop h proc field) as [[[]|m] h1]; simpl in *; [|done].
  by rewrite IH.
Qed.

Lemma forEach_proc_frame (n : nat) (procs : list value) (fields : list string) (h : heap) :
  Forall (fresh_value n) procs -> take n (forEach_proc h procs fields).2 = take n h.
Proof.
  intros Hprocs. revert h. induction Hprocs as [|proc rest Hproc Hrest IH]; intros h; simpl;
    [done|].
  pose proof (delete_fields_frame n proc fields h Hproc) as Hdel.
  destruct (delete_fields h proc fields) as [[[]|m] h1]; simpl in *; [|done].
  by rewrite IH.
Qed.

(** The copy made by [clone]: new objects only, none of which refers to an
    old one. *)
Lemma clone_allocates (h : heap) (v : value) :
  exists ext,
    (clone h v).2 = h ++ ext
    /\ (forall v', (clone h v).1 = Normal v' -> fresh_value (length h) v')
    /\ Forall (fresh_object (length h)) ext.
Proof.
  unfold clone.
  destruct (serialize (S (length h)) h v) as [[j|]|m].
  - destruct (alloc_allocates j h) as (ext & Hh & Hv & Hext).
    destruct (alloc j h) as [v' h']. simpl in *. exists ext.
    split_and!; [done| |done]. by intros ? [= <-].
  - exists []. simpl. rewrite app_nil_r. split_and!; done.
  - exists []. simpl. rewrite app_nil_r. split_and!; done.
Qed.

Lemma clone_truthy (h : heap) (v v' : value) :
  (clone h v).1 = Normal v' -> truthy_value v = true -> truthy_value v' = true.
Proof.
  unfold clone. intros Hclone Hv.
  destruct v as [| |b|n|s|l]; simpl in *; try done.
  - by injection Hclone as <-.
  - by injection Hclone as <-.
  - by injection Hclone as <-.
  - destruct (h !! l) as [[elems|props]|]; simpl in Hclone; [| |done].
    + destruct (ser_elems _ elems); [|done]. simpl in Hclone.
      destruct (alloc_elems alloc a h). simpl in Hclone. by injection Hclone as <-.
    + destruct (ser_props _ props); [|done]. simpl in Hclone.
      destruct (alloc_members alloc a h). simpl in Hclone. by injection Hclone as <-.
Qed.

(** A fresh reference that resolves in [h ++ ext] resolves to one of the
    new objects. *)
Lemma lookup_fresh (h ext : heap) (l : loc) (o : object) :
  length h <= l -> (h ++ ext) !! l = Some o -> o ∈ ext.
Proof.
  intros Hl Hlook. rewrite lookup_app_r in Hlook by done.
  by eapply list_elem_of_lookup_2.
Qed.

Lemma assoc_fresh (n : nat) (key : string) (props : list (string * value)) :
  Forall (fun kv => fresh_value n kv.2) props ->
  fresh_value n (default VUndefined (assoc key props)).
Proof.
  induction 1 as [|[k w] rest Hw Hrest IH]; simpl; [done|].
  destruct (assoc key rest); simpl in *; [done|].
  case_bool_decide; done.
Qed.

(** [reformatLastResult] leaves every object that existed before it ran
    as it was, whether it returns or throws. *)
Lemma reformatLastResult_frame (h : heap) (last : option ExecResult)
    (fields : list string) (ref : value) :
  take (length h) (reformatLastResult h last fields ref).2 = h.
Proof.
  unfold reformatLastResult.
  destruct last as [r|]; simpl; [|by rewrite firstn_all].
  destruct (negb (truthy_value (output r))); simpl; [by rewrite firstn_all|].
  destruct (clone_allocates h (output r)) as (ext & Hh1 & Hfresh & Hext).
  destruct (clone h (output r)) as [[v|m] h1]; simpl in *; subst h1;
    [|by rewrite take_app_length].
  specialize (Hfresh v eq_refl).
  assert (forall o l, length h <= l -> (h ++ ext) !! l = Some o -> fresh_object (length h) o)
    as Hobj.
  { intros o l Hl Hlook. rewrite Forall_forall in Hext. apply Hext.
    by eapply lookup_fresh. }
  destruct (get_prop (h ++ ext) v "top_processes") as [tp|m] eqn:Hget; simpl;
    [|by rewrite take_app_length].
  assert (fresh_value (length h) tp) as Htp.
  { destruct v as [| | | | |l]; simpl in Hget; try (by injection Hget as <-); try done.
    destruct ((h ++ ext) !! l) as [[elems|props]|] eqn:Hl;
      try (by injection Hget as <-).
    injection Hget as <-. apply assoc_fresh. exact (Hobj _ _ Hfresh Hl). }
  destruct (if truthy_value tp then as_array (h ++ ext) tp else None) as [procs|] eqn:Harr;
    simpl; [|by rewrite take_app_length].
  assert (Forall (fresh_value (length h)) procs) as Hprocs.
  { destruct (truthy_value tp); [|done].
    destruct tp as [| | | | |l]; simpl in Harr; try done.
    destruct ((h ++ ext) !! l) as [[elems|props]|] eqn:Hl; try done.
    injection Harr as <-. exact (Hobj _ _ Htp Hl). }
  pose proof (forEach_proc_frame (length h) procs fields (h ++ ext) Hprocs) as Hloop.
  destruct (forEach_proc (h ++ ext) procs fields) as [[[]|m] h2]; simpl in *;
    [|by rewrite Hloop, take_app_length].
  pose proof (set_prop_frame (length h) h2 v "exclude_fields" ref Hfresh) as Hset.
  destruct (set_prop h2 v "exclude_fields" ref) as [[[]|m] h3]; simpl in *;
    by rewrite Hset, Hloop, take_app_length.
Qed.

Lemma reformatLastResult_truthy (h : heap) (r : ExecResult) (fields : list string)
    (ref v : value) :
  truthy_value (output r) = true ->
  (reformatLastResult h (Some r) fields ref).1 = Normal v ->
  truthy_value v = true.
Proof.
  intros Hout. unfold reformatLastResult. rewrite Hout. simpl.
  pose proof (clone_truthy h (output r)) as Hclone.
  destruct (clone h (output r)) as [[v'|m] h1]; simpl in *; [|done].
  specialize (Hclone v' eq_refl Hout).
  destruct (get_prop h1 v' "top_processes") as [tp|m]; simpl; [|done].
  destruct (if truthy_value tp then as_array h1 tp else None) as [procs|]; simpl.
  - destruct (forEach_proc h1 procs fields) as [[[]|m] h2]; simpl; [|done].
    destruct (set_prop h2 v' "exclude_fields" ref) as [[[]|m] h3]; simpl; [|done].
    by intros [= <-].
  - by intros [= <-].
Qed.

Section facts.
Context `{Host} `{Layout}.


End facts.

Section examples.
#[local] Existing Instance Sample.host.
#[local] Existing Instance Sample.layout.


End examples.

End ReformatFacts.


(** ** The deep copy (renderer.js) *)

Module CloneFacts.
Import Js Renderer Claims ReformatFacts.

Lemma alloc_elems_grows (elems : list json) (h : heap) :
  exists ext, (alloc_elems alloc elems h).2 = h ++ ext.
Proof.
  destruct (alloc_elems_allocates elems
              (proj2 (Forall_forall _ _) (fun x _ => alloc_allocates x)) h) as (ext & Hext & _).
  eauto.
Qed.

Lemma alloc_members_grows (members : list (string * json)) (h : heap) :
  exists ext, (alloc_members alloc members h).2 = h ++ ext.
Proof.
  destruct (alloc_members_allocates members
              (proj2 (Forall_forall _ _) (fun x _ => alloc_allocates x.2)) h)
    as (ext & Hext & _).
  eauto.
Qed.

Lemma ser_elems_alloc (elems : list json) :
  Forall serializes_back elems ->
  forall h ext fuel, max_list (map depth elems) <= fuel ->
    ser_elems (serialize fuel ((alloc_elems alloc elems h).2 ++ ext))
      (alloc_elems alloc elems h).1
    = Normal (map canon elems).
Proof.
  induction 1 as [|x rest Hx Hrest IH]; intros h ext fuel Hfuel; simpl; [done|].
  simpl in Hfuel.
  specialize (Hx h). destruct (alloc x h) as [v h1]. simpl in Hx.
  destruct (alloc_elems_grows rest h1) as [e2 He2].
  specialize (IH h1 ext fuel ltac:(lia)).
  destruct (alloc_elems alloc rest h1) as [vs h2]. simpl in *. subst h2.
  rewrite <- app_assoc, Hx by lia. rewrite app_assoc, IH. done.
Qed.

Section serialized.
Context (ser : value -> completion (option json)).

#[local] Abbreviation ser_to := (ser_to ser).

Lemma props_set_ser_to (k : string) (v : value) (j : json) props members :
  ser v = Normal (Some j) -> Forall2 ser_to props members ->
  Forall2 ser_to (props_set k v props) (props_set k j members).
Proof.
  intros Hv. induction 1 as [|[k1 v1] [k2 j2] props members [Hk Hs] Hrest IH]; simpl.
  - by repeat constructor.
  - simpl in Hk. subst k2. case_bool_decide; constructor; done.
Qed.

Lemma foldl_props_set_ser_to props members acc acc' :
  Forall2 ser_to acc acc' -> Forall2 ser_to props members ->
  Forall2 ser_to (foldl (fun acc kv => props_set kv.1 kv.2 acc) acc props)
    (foldl (fun acc kv => props_set kv.1 kv.2 acc) acc' members).
Proof.
  intros Hacc Hprops. revert acc acc' Hacc.
  induction Hprops as [|[k1 v1] [k2 j2] props members [Hk Hs] Hrest IH];
    intros acc acc' Hacc; simpl; [done|].
  simpl in Hk, Hs. subst k2. apply IH. by apply props_set_ser_to.
Qed.

Lemma ser_props_ser_to props members :
  Forall2 ser_to props members -> ser_props ser props = Normal members.
Proof.
  induction 1 as [|[k1 v1] [k2 j2] props members [Hk Hs] Hrest IH]; simpl; [done|].
  simpl in Hk, Hs. subst k2. by rewrite Hs, IH.
Qed.

End serialized.

Lemma alloc_members_ser_to (members : list (string * json)) :
  Forall (fun kv => serializes_back kv.2) members ->
  forall h ext fuel, max_list (map (fun kv => depth kv.2) members) <= fuel ->
    Forall2 (Claims.ser_to (serialize fuel ((alloc_members alloc members h).2 ++ ext)))
      (alloc_members alloc members h).1
      (map (fun kv => (kv.1, canon kv.2)) members).
Proof.
  induction 1 as [|[k x] rest Hx Hrest IH]; intros h ext fuel Hfuel; simpl; [constructor|].
  simpl in Hfuel, Hx.
  specialize (Hx h). destruct (alloc x h) as [v h1]. simpl in Hx.
  destruct (alloc_members_grows rest h1) as [e2 He2].
  specialize (IH h1 ext fuel ltac:(lia)).
  destruct (alloc_members alloc rest h1) as [vs h2]. simpl in *. subst h2.
  constructor; [|done]. split; [done|]. simpl.
  rewrite <- app_assoc. apply Hx. lia.
Qed.

Lemma alloc_serializes_back (j : json) : serializes_back j.
Proof.
  induction j as [| | | |elems IH|members IH] using json_nested_ind;
    intros h ext fuel Hfuel.
  1-4: by destruct fuel.
  - change (S (max_list (map depth elems)) <= fuel) in Hfuel.
    destruct fuel as [|fuel]; [lia|].
    pose proof (ser_elems_alloc elems IH h ([OArr (alloc_elems alloc elems h).1] ++ ext) fuel
                  ltac:(lia)) as Hser.
    simpl alloc. destruct (alloc_elems alloc elems h) as [vs h1]. simpl in Hser |- *.
    rewrite <- app_assoc. cbn [serialize].
    change ([OArr vs] ++ ext) with (OArr vs :: ext).
    rewrite list_lookup_middle by done. by rewrite Hser.
  - change (S (max_list (map (fun kv => depth kv.2) members)) <= fuel) in Hfuel.
    destruct fuel as [|fuel]; [lia|].
    pose proof (alloc_members_ser_to members IH h
                  ([object_of_members (alloc_members alloc members h).1] ++ ext) fuel
                  ltac:(lia)) as Hser.
    simpl alloc. destruct (alloc_members alloc members h) as [props h1]. simpl in Hser |- *.
    rewrite <- app_assoc. cbn [serialize].
    change ([object_of_members props] ++ ext) with (object_of_members props :: ext).
    rewrite list_lookup_middle by done.
    unfold object_of_members at 1.
    erewrite ser_props_ser_to; [done|].
    apply foldl_props_set_ser_to; [constructor|]. exact Hser.
Qed.

Lemma alloc_nests_in_heap (j : json) : nests_in_heap j.
Proof.
  induction j as [| | | |elems IH|members IH] using json_nested_ind; intros h; simpl;
    try lia.
  - assert (forall h, max_list (map depth elems) + length h
                      <= length (alloc_elems alloc elems h).2) as Hall.
    { clear h. induction IH as [|x rest Hx Hrest IHrest]; intros h; simpl; [lia|].
      specialize (Hx h). destruct (alloc x h) as [v h1]. simpl in Hx.
      specialize (IHrest h1). destruct (alloc_elems_grows rest h1) as [e2 He2].
      destruct (alloc_elems alloc rest h1) as [vs h2]. simpl in *. subst h2.
      rewrite length_app in *. lia. }
    specialize (Hall h). destruct (alloc_elems alloc elems h) as [vs h1]. simpl in *.
    rewrite length_app. simpl. lia.
  - assert (forall h, max_list (map (fun kv => depth kv.2) members) + length h
                      <= length (alloc_members alloc members h).2) as Hall.
    { clear h. induction IH as [|[k x] rest Hx Hrest IHrest]; intros h; simpl; [lia|].
      simpl in Hx. specialize (Hx h). destruct (alloc x h) as [v h1]. simpl in Hx.
      specialize (IHrest h1). destruct (alloc_members_grows rest h1) as [e2 He2].
      destruct (alloc_members alloc rest h1) as [vs h2]. simpl in *. subst h2.
      rewrite length_app in *. lia. }
    specialize (Hall h). destruct (alloc_members alloc members h) as [vs h1]. simpl in *.
    rewrite length_app. simpl. lia.
Qed.

(** The fuel of [clone] suffices for every output that reached the window
    as a reply: in any later heap that still holds its objects, [clone]
    does not throw and returns the graph of the same text. *)
Lemma clone_of_received (j : json) (h ext : heap) :
  let v := (alloc j h).1 in
  let h' := (alloc j h).2 ++ ext in
  clone h' v = (Normal (alloc (canon j) h').1, (alloc (canon j) h').2).
Proof.
  intros v h'. subst v h'. unfold clone.
  rewrite alloc_serializes_back.
  - by destruct (alloc (canon j) ((alloc j h).2 ++ ext)).
  - pose proof (alloc_nests_in_heap j h). rewrite length_app. lia.
Qed.

End CloneFacts.

(** ** Stopping (renderer.js with the executor) *)

Module StopFacts.
Import Js Renderer Backend System Claims.

Section facts.
Context `{Host} `{Layout}.
Context {W : Type} (perform : W -> Action -> Outcome * W) (clock : W -> Z).

Lemma handleStop_invoked (st : State) : invoked (handleStop st) = invoked st.
Proof.
  unfold handleStop.
  destruct (PipelineFacts.addMessage_fields "warning" "Stopped" "Processing stopped by user."
              None (set_flags (isProcessing st) true st)) as (_ & _ & _ & _ & _ & Hinv & _).
  exact Hinv.
Qed.

(** The stop button ends in [setProcessing(false)], which clears the flag
    the handler has just set. *)
Lemma handleStop_flags (st : State) :
  shouldStop (handleStop st) = false /\ isProcessing (handleStop st) = false.
Proof. done. Qed.

(** Nothing the window does on a stop reaches the backend. *)
Lemma stop_click_executions (w : World W) :
  executions (System.step perform clock w (Window StopClick)) = executions w
  /\ audit_log (System.step perform clock w (Window StopClick)) = audit_log w
  /\ os (System.step perform clock w (Window StopClick)) = os w.
Proof.
  change (System.step perform clock w (Window StopClick)) with (window_step w StopClick).
  unfold window_step.
  change (Renderer.step (window w) StopClick) with (handleStop (window w)).
  by rewrite handleStop_invoked, drop_all.
Qed.

Lemma deliver_unsignalled (w : World W) (c : Call) :
  Forall unsignalled (executions w) -> Forall unsignalled (executions (deliver w c)).
Proof.
  intros Hw. destruct c as [| [plan|] | |]; simpl; try done.
  apply Forall_app. split; [done|]. by repeat constructor.
Qed.

Lemma window_step_unsignalled (w : World W) (e : Renderer.Event) :
  Forall unsignalled (executions w) ->
  Forall unsignalled (executions (window_step w e)).
Proof.
  intros Hw. unfold window_step.
  generalize (drop (length (invoked (window w))) (invoked (Renderer.step (window w) e))).
  intros calls.
  assert (Forall unsignalled
            (executions {| window := Renderer.step (window w) e; executions := executions w;
                           audit_log := audit_log w; os := os w |})) as Hstart by done.
  revert Hstart.
  generalize {| window := Renderer.step (window w) e; executions := executions w;
                audit_log := audit_log w; os := os w |}.
  induction calls as [|c calls IH]; intros w' Hw'; simpl; [done|].
  apply IH. by apply deliver_unsignalled.
Qed.

Lemma executor_step_unsignalled (w : World W) (child : nat) :
  Forall unsignalled (executions w) ->
  Forall unsignalled (executions (executor_step perform clock w child)).
Proof.
  intros Hw. unfold executor_step.
  destruct (executions w !! child) as [ex|] eqn:Hex; [|done].
  destruct (todo ex) as [|a rest]; [done|].
  assert (unsignalled ex) as [Hc Hs].
  { rewrite Forall_forall in Hw. apply Hw. by eapply list_elem_of_lookup_2. }
  rewrite Hc. destruct (perform (os w) a) as [o os']. simpl.
  apply Forall_insert; [done|]. by split.
Qed.

Lemma step_unsignalled (w : World W) (e : System.Event) :
  Forall unsignalled (executions w) ->
  Forall unsignalled (executions (System.step perform clock w e)).
Proof.
  intros Hw. destruct e as [e|child|child]; simpl.
  - by apply window_step_unsignalled.
  - by apply executor_step_unsignalled.
  - unfold executor_close. repeat case_match; try done.
    by apply window_step_unsignalled.
Qed.

(** No execution that the window has started is ever signalled to stop. *)
Lemma run_unsignalled (events : list System.Event) (w : World W) :
  Forall unsignalled (executions w) ->
  Forall unsignalled (executions (System.run perform clock w events)).
Proof.
  revert w. induction events as [|e events IH]; intros w Hw; simpl; [done|].
  apply IH. by apply step_unsignalled.
Qed.

(** An execution that is not signalled runs every action that is left. *)
Lemma executor_runs_all (rest : Plan) (w : World W) (child : nat) (ex : Execution) :
  executions w !! child = Some ex -> cancel_signal ex = false -> todo ex = rest ->
  let w' := System.run perform clock w (replicate (length rest) (ExecutorStep child)) in
  window w' = window w
  /\ length (audit_log w') = length (audit_log w) + length rest
  /\ exists ex', executions w' !! child = Some ex'
       /\ todo ex' = [] /\ stopped ex' = stopped ex
       /\ map w_action (produced ex') = map w_action (produced ex) ++ map action rest.
Proof.
  revert w ex. induction rest as [|a rest IH]; intros w ex Hex Hc Htodo.
  { simpl. split_and!; [done|lia|]. exists ex. by rewrite app_nil_r. }
  destruct (perform (os w) a) as [o os'] eqn:Hperform.
  set (ex1 := {| todo := rest; produced := produced ex ++ [result_of a o];
                 cancel_signal := false; stopped := stopped ex |}).
  set (w1 := {| window := window w; executions := <[child := ex1]> (executions w);
                audit_log := audit_log w ++ [audit_record (clock (os w)) (result_of a o)];
                os := os' |}).
  assert (System.step perform clock w (ExecutorStep child) = w1) as Hstep.
  { simpl. unfold executor_step. by rewrite Hex, Htodo, Hc, Hperform. }
  assert (executions w1 !! child = Some ex1) as Hex1.
  { simpl. apply list_lookup_insert_eq. exact (lookup_lt_Some _ _ _ Hex). }
  destruct (IH w1 ex1 Hex1 eq_refl eq_refl) as (Hwin & Haudit & ex' & Hex' & Htodo' & Hstop & Hacts).
  change (System.run perform clock w (replicate (length (a :: rest)) (ExecutorStep child)))
    with (System.run perform clock (System.step perform clock w (ExecutorStep child))
            (replicate (length rest) (ExecutorStep child))).
  rewrite Hstep. cbv zeta.
  split_and!.
  - by rewrite Hwin.
  - rewrite Haudit. simpl. rewrite length_app. simpl. lia.
  - exists ex'. split_and!; try done. rewrite Hacts. simpl.
    rewrite map_app. simpl. rewrite <- app_assoc. simpl.
    by destruct (BackendFacts.result_of_status a o) as [-> _].
Qed.

(** When a reply arrives while the stop flag is set, it is dropped. *)
Lemma settled_when_stopped (st : State) (reply : ExecReply) :
  shouldStop st = true ->
  let st' := executeCurrentPlan_settled (Resolved reply) st in
  outputArea st' = outputArea st /\ lastResult st' = lastResult st
  /\ conversations st' = conversations st
  /\ isProcessing st' = false /\ currentPlan st' = None.
Proof.
  intros Hstop. simpl. destruct (receive (e_results reply) (heap_of st)) as [results h].
  change (shouldStop (set_heap h st)) with (shouldStop st). by rewrite Hstop.
Qed.


End facts.

Section examples.
#[local] Existing Instance Sample.host.
#[local] Existing Instance Sample.layout.


End examples.


End StopFacts.

(** ** The handlers of the main process (main.js) *)

Module MainExtra.
Import Js Main Observations.

Section facts.
Context `{Host}.

Lemma step_counts (st : State) (e : Event) :
  length (spawned (step st e).1)
  = length (spawned st) + (if starts_child e then 1 else 0)
  /\ pythonProcess (step st e).1 = pythonProcess st
  /\ (is_Some (step st e).2 <-> is_handle e = true).
Proof.
  assert (is_Some (@None Reply) <-> false = true) as Hnone.
  { split; [by intros [? ?]|done]. }
  destruct e as [n| |p| |call child]; simpl.
  - case_bool_decide; simpl; split_and!; try lia; try done; exact Hnone.
  - split_and!; try lia; try done; exact Hnone.
  - split_and!; try lia; try done; exact Hnone.
  - split_and!; try lia; try done; exact Hnone.
  - destruct call; simpl; rewrite ?length_app; simpl; split_and!; try lia; try done;
      (split; [done|eauto]).
Qed.

(** X1.  Over any run of the main process, every IPC invocation (its
    backend child, if it starts one, having closed) is answered by exactly
    one reply -- the handlers catch every failure --, a backend child is
    started exactly once for each ['submit-prompt'], ['approve-plan'] and
    ['view-logs'] invocation and for nothing else, and [pythonProcess] is
    never assigned, so that there is never a child for
    ['window-all-closed'] to kill. *)
Theorem one_reply_one_child (st : State) (events : list Event) :
  length (run st events).2 = length (filter (fun e => is_handle e) events)
  /\ length (spawned (run st events).1)
     = length (spawned st) + length (filter (fun e => starts_child e) events)
  /\ pythonProcess (run st events).1 = pythonProcess st.
Proof.
  revert st. induction events as [|e events IH]; intros st; simpl.
  { split_and!; (done || lia). }
  destruct (step_counts st e) as (Hsp & Hpy & Hre).
  destruct (step st e) as [st1 r]. simpl in *.
  destruct (IH st1) as (IH1 & IH2 & IH3).
  destruct (run st1 events) as [st2 rs]. simpl in *.
  rewrite !filter_cons.
  split_and!.
  - destruct (is_handle e); simpl.
    + destruct r as [x|]; simpl; [by rewrite IH1|].
      destruct Hre as [_ Hre]. by destruct (Hre eq_refl).
    + destruct r as [x|]; [|done].
      destruct Hre as [Hre _]. by discriminate (Hre (mk_is_Some _ _ eq_refl)).
  - rewrite IH2, Hsp. destruct (starts_child e); simpl; lia.
  - congruence.
Qed.

(** X2.  A handler that runs the backend hands its result to the window
    only when the child exited with code 0 and its output parsed; in every
    other case -- also when the output of a failed child parses -- the
    reply is an error, carrying the child's error output when there is
    some. *)
Theorem backend_reply_needs_clean_exit (call : Invoke) (child : ChildExit) (st : State) :
  spawns call = true ->
  (forall result, (handle call child st).2 = BackendReply result
                  <-> code child = Some 0%Z /\ JSON_parse (dataString child) = Some result)
  /\ (code child <> Some 0%Z -> errorString child <> "" ->
      (handle call child st).2 = ErrorReply (errorString child))
  /\ ((exists r, (handle call child st).2 = BackendReply r)
      \/ (exists m, (handle call child st).2 = ErrorReply m)).
Proof.
  intros Hcall.
  assert (exists f, (handle call child st).2 = settle (backend_promise f child)) as [f ->].
  { destruct call; try done; simpl; eauto. }
  unfold backend_promise.
  case_bool_decide as Hcode.
  - simpl. split_and!.
    + intros result. split; [done|]. by intros [? _].
    + intros _ Herr. unfold str_or. by rewrite bool_decide_eq_false_2.
    + right. eauto.
  - assert (code child = Some 0%Z) as Hzero.
    { destruct (decide (code child = Some 0%Z)); [done|]. by destruct Hcode. }
    destruct (JSON_parse (dataString child)) as [r|]; simpl; split_and!.
    + intros result. split; [intros [= ->]; done|]. by intros [_ [= ->]].
    + done.
    + left. eauto.
    + intros result. split; [done|]. by intros [_ ?].
    + done.
    + right. eauto.
Qed.

Lemma step_title (v : json) (st : State) (e : Event) :
  isRunningAsAdmin st = v ->
  Forall (fun m => m = v) (sent_admin_status st) ->
  (forall t, mainWindow st = Some t -> t = title_for v) ->
  isRunningAsAdmin (step st e).1 = v
  /\ Forall (fun m => m = v) (sent_admin_status (step st e).1)
  /\ (forall t, mainWindow (step st e).1 = Some t -> t = title_for v).
Proof.
  intros Hv Hsent Htitle.
  destruct e as [n| |p| |call child]; simpl.
  - case_bool_decide; simpl; split_and!; try done.
    intros t [= <-]. by rewrite Hv.
  - done.
  - done.
  - split_and!; try done. apply Forall_app. split; [done|]. by repeat constructor.
  - destruct call; simpl; done.
Qed.

(** X3.  Every window the main process opens, at start-up or on
    re-activation, carries the title computed from the cached admin status
    -- with [ADMINISTRATOR] exactly when the status is truthy --, and every
    ['admin-status'] message it sends to a window carries that status. *)
Theorem windows_show_cached_status (platform : string) (probe : ChildExit)
    (events : list Event) :
  let v := isRunningAsAdmin (whenReady platform probe) in
  let st := (run (whenReady platform probe) events).1 in
  mainWindow (whenReady platform probe) = Some (title_for v)
  /\ (forall t, mainWindow st = Some t -> t = title_for v)
  /\ Forall (fun m => m = v) (sent_admin_status st).
Proof.
  intros v st.
  assert (mainWindow (whenReady platform probe) = Some (title_for v)) as Hstart.
  { subst v. unfold whenReady.
    destruct (MainFacts.checkAdminStatus_resolves platform probe) as [x ->]. done. }
  split; [done|].
  assert (forall events st0,
            isRunningAsAdmin st0 = v ->
            Forall (fun m => m = v) (sent_admin_status st0) ->
            (forall t, mainWindow st0 = Some t -> t = title_for v) ->
            (forall t, mainWindow (run st0 events).1 = Some t -> t = title_for v)
            /\ Forall (fun m => m = v) (sent_admin_status (run st0 events).1)) as Hrun.
  { clear. induction events as [|e events IH]; intros st0 Hv Hsent Htitle; simpl; [done|].
    destruct (step_title v st0 e Hv Hsent Htitle) as (Hv1 & Hsent1 & Htitle1).
    destruct (step st0 e) as [st1 r]. simpl in *.
    specialize (IH st1 Hv1 Hsent1 Htitle1).
    by destruct (run st1 events) as [st2 rs]. }
  apply Hrun; [done| |].
  - unfold whenReady.
    destruct (MainFacts.checkAdminStatus_resolves platform probe) as [x ->]. constructor.
  - rewrite Hstart. by intros t [= <-].
Qed.

(** X4.  The child started for ['submit-prompt'] is always told to plan
    only -- submitting a prompt never executes anything --, and, for a
    history that is an array or is missing, it is told to expect a history
    exactly when one is written to its input, which is the case exactly
    when the array is not empty. *)
Theorem submit_prompt_plans_only (prompt : string) (history : option (list json))
    (child : ChildExit) (st : State) :
  exists s, spawned (handle (SubmitPrompt prompt (JArr <$> history)) child st).1
            = spawned st ++ [s]
    /\ take 3 (args s) = ["--prompt"; prompt; "--plan-only"]
    /\ match history with
       | Some (m :: l) =>
           drop 3 (args s) = ["--with-history"]
           /\ stdin s = Some (JSON_stringify (JArr (m :: l)))
       | _ => drop 3 (args s) = [] /\ stdin s = None
       end.
Proof.
  eexists. split; [reflexivity|]. split; [done|].
  by destruct history as [[|m l]|].
Qed.

End facts.

Lemma backend_reply_needs_clean_exit_witness :
  let child := {| code := Some 1%Z; dataString := Sample.probe_says "true";
                  errorString := "boom" |} in
  spawns (ViewLogs None) = true
  /\ (@handle Sample.host (ViewLogs None) child module_load).2 = ErrorReply "boom".
Proof.
  intros child. split; [reflexivity|].
  exact (proj1 (proj2 (@backend_reply_needs_clean_exit Sample.host (ViewLogs None) child
                         module_load eq_refl)) ltac:(discriminate) ltac:(discriminate)).
Defined.

End MainExtra.

(** ** Conversations, storage and the page (renderer.js) *)

Module ConversationExtra.
Import Js Renderer Claims Observations.

Lemma find_conversation_insert (cid : option string) (l : list Conversation) i c c' :
  find_conversation cid l = Some (i, c) -> id c' = id c ->
  find_conversation cid (<[i := c']> l) = Some (i, c').
Proof.
  destruct cid as [x|]; simpl; [|done].
  intros (Hl & Hid & Hfirst)%list_find_Some Hid'.
  apply list_find_Some. split_and!.
  - apply list_lookup_insert_eq. by eapply lookup_lt_Some.
  - congruence.
  - intros j y Hj Hlt. rewrite list_lookup_insert_ne in Hj by lia. by eapply Hfirst.
Qed.

Lemma string_length_app (s1 s2 : string) :
  String.length (s1 +:+ s2) = String.length s1 + String.length s2.
Proof.
  induction s1 as [|c s1 IH]; [done|].
  change (S (String.length (s1 +:+ s2)) = S (String.length s1) + String.length s2).
  by rewrite IH.
Qed.

Lemma string_length_substring (n : nat) (s : string) :
  String.length (substring 0 n s) <= n.
Proof.
  revert s. induction n as [|n IH]; intros [|c s]; simpl; try lia.
  specialize (IH s). lia.
Qed.

Lemma titled_length (firstMessage : string) :
  String.length (titled firstMessage) <= 43
  /\ (String.length firstMessage <= 40 -> titled firstMessage = firstMessage).
Proof.
  unfold titled. split.
  - rewrite string_length_app. pose proof (string_length_substring 40 firstMessage).
    case_bool_decide; simpl; lia.
  - intros Hle. rewrite bool_decide_eq_false_2 by lia.
    rewrite PipelineFacts.string_app_nil_r.
    assert (forall n s, String.length s <= n -> substring 0 n s = s) as Hsub.
    { clear. induction n as [|n IH]; intros [|c s] Hs; simpl in *; try done; try lia.
      rewrite IH; [done|lia]. }
    by apply Hsub.
Qed.

Lemma addMessage_insert (type title content : string) (data : option MessageData)
    (st : State) (i : nat) (c : Conversation) :
  find_conversation (currentConversationId st) (conversations st) = Some (i, c) ->
  conversations (addMessage type title content data st)
  = <[i := with_message type title content data c]> (conversations st).
Proof.
  intros Hfind. unfold addMessage, saveMessageToConversation.
  change (currentConversationId (addMessageToDOM type title content data st))
    with (currentConversationId st).
  change (conversations (addMessageToDOM type title content data st))
    with (conversations st).
  rewrite Hfind.
  set (c1 := {| id := id c; title := Renderer.title c;
                messages := messages c ++ [{| m_type := type; m_title := title;
                                              m_content := content; m_data := data |}] |}).
  pose proof (find_conversation_insert _ _ i c c1 Hfind eq_refl) as Hfind1.
  unfold with_message.
  destruct (bool_decide (type = "user") && bool_decide (Renderer.title c1 = "New Chat"))
    eqn:Huser; change (Renderer.title c1) with (Renderer.title c) in Huser;
    rewrite Huser; [|done].
  unfold updateConversationTitle. simpl. rewrite Hfind1.
  apply andb_prop in Huser as [_ Htitle]. simpl. rewrite Htitle. simpl.
  by rewrite list_insert_insert_eq.
Qed.

Lemma addMessage_currentConversationId (type title content : string)
    (data : option MessageData) (st : State) :
  currentConversationId (addMessage type title content data st) = currentConversationId st.
Proof.
  pose proof (ConversationFacts.chats_addMessage type title content data st) as Hc.
  unfold chats in Hc. by injection Hc.
Qed.


Lemma page_of_cons (first : nat) (m : Message) (msgs : list Message) :
  page_of first (m :: msgs) = node_of first m :: page_of (S first) msgs.
Proof.
  unfold page_of. rewrite imap_cons. f_equal.
  - unfold node_of. f_equal. lia.
  - apply imap_ext. intros k x _. simpl. unfold node_of. f_equal. lia.
Qed.

Lemma foldl_addMessageToDOM_page (msgs : list Message) (st : State) :
  let st' := foldl (fun st msg =>
                      addMessageToDOM (m_type msg) (m_title msg) (m_content msg)
                        (m_data msg) st) st msgs in
  outputArea st' = outputArea st ++ page_of (next_node st) msgs
  /\ next_node st' = next_node st + length msgs
  /\ conversations st' = conversations st
  /\ currentConversationId st' = currentConversationId st
  /\ localStorage st' = localStorage st.
Proof.
  revert st. induction msgs as [|m msgs IH]; intros st; simpl.
  { rewrite app_nil_r. split_and!; (done || lia). }
  destruct (IH (addMessageToDOM (m_type m) (m_title m) (m_content m) (m_data m) st))
    as (Hout & Hnext & Hconv & Hcur & Hstore).
  split_and!; try done.
  - rewrite Hout, page_of_cons. simpl. by rewrite <- app_assoc.
  - rewrite Hnext. simpl. lia.
Qed.

Lemma loadConversation_store (conversationId : string) (st : State) :
  conversations (loadConversation conversationId st) = conversations st
  /\ localStorage (loadConversation conversationId st) = localStorage st.
Proof.
  unfold loadConversation.
  destruct (find_conversation (Some conversationId) (conversations st)) as [[i c]|]; [|done].
  destruct (foldl_addMessageToDOM_page (messages c)
              (set_outputArea [] (set_currentConversationId (Some conversationId) st)))
    as (_ & _ & Hconv & _ & Hstore).
  done.
Qed.

(** X6.  Selecting a conversation that is in the list makes it the current
    one and puts on the page exactly its messages, one node each, in
    order, in place of whatever the page showed; the conversations and
    the storage are untouched.  Selecting an identifier that is not in the
    list changes nothing. *)
Theorem loadConversation_shows_messages (conversationId : string) (st : State) :
  let st' := loadConversation conversationId st in
  match find_conversation (Some conversationId) (conversations st) with
  | Some (_, c) =>
      outputArea st' = page_of (next_node st) (messages c)
      /\ currentConversationId st' = Some conversationId
      /\ id c = conversationId
  | None => st' = st
  end
  /\ conversations st' = conversations st
  /\ localStorage st' = localStorage st.
Proof.
  intros st'. subst st'. unfold loadConversation.
  destruct (find_conversation (Some conversationId) (conversations st)) as [[i c]|] eqn:Hfind;
    [|done].
  destruct (foldl_addMessageToDOM_page (messages c)
              (set_outputArea [] (set_currentConversationId (Some conversationId) st)))
    as (Hout & _ & Hconv & Hcur & Hstore).
  apply ConversationFacts.find_conversation_Some in Hfind as [_ [= Hid]].
  split_and!; done.
Qed.

(** *** What is stored *)

Lemma synced_addMessage type title content data st :
  synced st -> synced (addMessage type title content data st).
Proof.
  intros Hst. unfold addMessage, saveMessageToConversation.
  case_match; [|done]. by case_match.
Qed.

Lemma synced_set_flags a b st : synced st -> synced (set_flags a b st).
Proof. done. Qed.
Lemma synced_setProcessing b st : synced st -> synced (setProcessing b st).
Proof. done. Qed.
Lemma synced_finally st : synced st -> synced (finally st).
Proof. done. Qed.
Lemma synced_set_heap h st : synced st -> synced (set_heap h st).
Proof. done. Qed.
Lemma synced_set_lastResult r st : synced st -> synced (set_lastResult r st).
Proof. done. Qed.
Lemma synced_set_currentPlan p st : synced st -> synced (set_currentPlan p st).
Proof. done. Qed.
Lemma synced_set_outputArea a st : synced st -> synced (set_outputArea a st).
Proof. done. Qed.
Lemma synced_invoke c st : synced st -> synced (invoke c st).
Proof. done. Qed.
Lemma synced_removeThinkingIndicator n st : synced st -> synced (removeThinkingIndicator n st).
Proof. done. Qed.
Lemma synced_submit_to_backend prompt st : synced st -> synced (submit_to_backend prompt st).
Proof. done. Qed.

Create HintDb sync.
#[local] Hint Resolve synced_addMessage synced_set_flags synced_setProcessing synced_finally
  synced_set_heap synced_set_lastResult synced_set_currentPlan synced_set_outputArea
  synced_invoke synced_removeThinkingIndicator synced_submit_to_backend : sync.

Ltac keeps_synced := repeat case_match; eauto 12 with sync.

Section facts.
Context `{Host} `{Layout}.

Lemma synced_step (st : State) (e : Event) : synced st -> synced (step st e).
Proof.
  intros Hst.
  destruct e as [input| | | | |fresh|confirmed fresh|cid fresh|cid|n [result|m]| |outcome|
                 |outcome| |outcome|outcome]; simpl.
  - unfold handleSubmit. keeps_synced.
  - unfold handleStop. keeps_synced.
  - done.
  - done.
  - unfold handleViewLogs. keeps_synced.
  - done.
  - by destruct confirmed.
  - unfold deleteConversation. repeat case_match; try done; reflexivity.
  - case_bool_decide; [|done].
    destruct (loadConversation_store cid st) as (Hconv & Hstore).
    unfold synced. by rewrite Hconv, Hstore.
  - unfold handleSubmit_resolved. keeps_synced.
  - unfold handleSubmit_rejected. keeps_synced.
  - done.
  - unfold executeCurrentPlan_settled. keeps_synced.
  - unfold window_approvePlan. keeps_synced.
  - unfold window_approvePlan_settled. keeps_synced.
  - unfold window_rejectPlan. keeps_synced.
  - unfold handleHelp_settled. keeps_synced.
  - unfold handleViewLogs_settled. keeps_synced.
Qed.

Lemma synced_start (stored : option (list Conversation)) (fresh : string) :
  synced (start stored fresh).
Proof.
  unfold start, loadConversations. destruct stored as [[|first rest]|]; simpl; try done.
  destruct (loadConversation_store (id first)
              (set_currentConversationId (Some (id first))
                 (set_conversations (first :: rest) (script_start (Some (first :: rest))))))
    as [Hconv Hstore].
  unfold synced. by rewrite Hconv, Hstore.
Qed.

Lemma reachable_synced_ok (stored : option (list Conversation)) (fresh : string)
    (events : list Event) :
  synced (run (start stored fresh) events)
  /\ conversations_ok (run (start stored fresh) events).
Proof.
  unfold run.
  assert (synced (start stored fresh) /\ conversations_ok (start stored fresh)) as Hstart.
  { split; [apply synced_start|apply ConversationFacts.conversations_ok_loadConversations]. }
  revert Hstart. generalize (start stored fresh).
  induction events as [|e events IH]; intros st [Hs Hok]; simpl; [done|].
  apply IH. split; [by apply synced_step|by apply ConversationFacts.conversations_ok_step].
Qed.

(** X7.  After the script has loaded and after every event, what is stored
    under ['conversations'] is the list of conversations of the window:
    no message, title, new or deleted conversation exists only in
    memory. *)
Theorem storage_in_sync (stored : option (list Conversation)) (fresh : string)
    (events : list Event) :
  localStorage (run (start stored fresh) events)
  = Some (conversations (run (start stored fresh) events)).
Proof. apply reachable_synced_ok. Qed.

(** X8.  Closing the window at any moment and opening it again brings back
    the same conversations, in the same order; the first of them is the
    current one and the page shows its messages. *)
Theorem reload_restores (stored : option (list Conversation)) (fresh fresh' : string)
    (events : list Event) :
  let st := run (start stored fresh) events in
  let st' := start (localStorage st) fresh' in
  conversations st' = conversations st
  /\ exists first rest,
       conversations st = first :: rest
       /\ currentConversationId st' = Some (id first)
       /\ outputArea st' = page_of 0 (messages first).
Proof.
  intros st st'.
  destruct (reachable_synced_ok stored fresh events) as [Hsync [Hne _]]. fold st in Hsync, Hne.
  subst st'. rewrite Hsync.
  destruct (conversations st) as [|first rest] eqn:Hconv; [done|].
  unfold start, loadConversations. simpl.
  set (st0 := set_currentConversationId (Some (id first))
                (set_conversations (first :: rest) (script_start (Some (first :: rest))))).
  assert (find_conversation (Some (id first)) (conversations st0) = Some (0, first)) as Hfind.
  { simpl. by rewrite decide_True. }
  destruct (loadConversation_store (id first) st0) as [Hc _].
  split; [by rewrite Hc|].
  exists first, rest. split; [done|].
  unfold loadConversation. rewrite Hfind.
  destruct (foldl_addMessageToDOM_page (messages first)
              (set_outputArea [] (set_currentConversationId (Some (id first)) st0)))
    as (Hout & _ & _ & Hcur & _).
  by rewrite Hout, Hcur.
Qed.

End facts.

(** X9.  Deleting a conversation removes the first conversation of that
    identifier and keeps the others in their order.  If it was the current
    one, the first of those that remain becomes current, or, when none
    remains, a new empty conversation is made and becomes current; if it
    was not, the current conversation and the page stay as they are.  The
    result is stored. *)
Theorem deleteConversation_removes_one (conversationId fresh : string) (st : State)
    (index : nat) (c : Conversation) :
  find_conversation (Some conversationId) (conversations st) = Some (index, c) ->
  let remaining := delete index (conversations st) in
  let st' := deleteConversation conversationId fresh st in
  length remaining + 1 = length (conversations st)
  /\ localStorage st' = Some (conversations st')
  /\ (if bool_decide (Some conversationId = currentConversationId st) then
        match remaining with
        | first :: _ =>
            conversations st' = remaining
            /\ currentConversationId st' = Some (id first)
        | [] =>
            conversations st' = [{| id := fresh; title := "New Chat"; messages := [] |}]
            /\ currentConversationId st' = Some fresh /\ outputArea st' = []
        end
      else
        conversations st' = remaining
        /\ currentConversationId st' = currentConversationId st
        /\ outputArea st' = outputArea st).
Proof.
  intros Hfind remaining st'.
  pose proof Hfind as [Hl _]%ConversationFacts.find_conversation_Some.
  split_and!.
  - subst remaining. rewrite length_delete by eauto.
    apply lookup_lt_Some in Hl. lia.
  - subst st'. unfold deleteConversation. by rewrite Hfind.
  - subst st'. unfold deleteConversation. rewrite Hfind. simpl.
    fold remaining. case_bool_decide; [|done].
    destruct remaining as [|first rest] eqn:Hrem; [done|].
    set (st0 := set_conversations (first :: rest) st).
    destruct (loadConversation_store (id first) st0) as [Hc _].
    assert (find_conversation (Some (id first)) (conversations st0) = Some (0, first))
      as Hfind0 by (simpl; by rewrite decide_True).
    split; [by rewrite Hc|].
    unfold loadConversation. rewrite Hfind0.
    destruct (foldl_addMessageToDOM_page (messages first)
                (set_outputArea [] (set_currentConversationId (Some (id first)) st0)))
      as (_ & _ & _ & Hcur & _).
    by rewrite Hcur.
Qed.

Lemma deleteConversation_removes_one_witness :
  let chat name := {| id := name; title := "New Chat"; messages := [] |} in
  let st := set_currentConversationId (Some "b")
              (set_conversations [chat "a"; chat "b"; chat "c"] (script_start None)) in
  find_conversation (Some "b") (conversations st) = Some (1, chat "b")
  /\ conversations (deleteConversation "b" "n" st) = [chat "a"; chat "c"]
  /\ localStorage (deleteConversation "b" "n" st) = Some [chat "a"; chat "c"].
Proof.
  intros chat st.
  assert (find_conversation (Some "b") (conversations st) = Some (1, chat "b")) as Hfind
    by reflexivity.
  split; [exact Hfind|]. split; [reflexivity|].
  exact (proj1 (proj2 (deleteConversation_removes_one "b" "n" st 1 (chat "b") Hfind))).
Defined.

End ConversationExtra.

(** ** Formatting requests (renderer.js) *)

Module FormatExtra.
Import Js Renderer Claims Observations.

Lemma lower_cases (c : ascii) :
  lower (lower c) = lower c /\ is_space (lower c) = is_space c
  /\ is_word (lower c) = is_word c.
Proof. destruct c as [[] [] [] [] [] [] [] []]; by vm_compute. Qed.

Lemma toLowerCase_idemp (s : string) : toLowerCase (toLowerCase s) = toLowerCase s.
Proof.
  induction s as [|c s IH]; [done|].
  change (String (lower (lower c)) (toLowerCase (toLowerCase s))
          = String (lower c) (toLowerCase s)).
  rewrite IH. by destruct (lower_cases c) as [-> _].
Qed.

Lemma trimStart_toLowerCase (s : string) :
  trimStart (toLowerCase s) = toLowerCase (trimStart s).
Proof.
  induction s as [|c s IH]; [done|].
  change (trimStart (String (lower c) (toLowerCase s)) = toLowerCase (trimStart (String c s))).
  simpl. destruct (lower_cases c) as (_ & -> & _). by destruct (is_space c).
Qed.

Lemma trimEnd_toLowerCase (s : string) :
  trimEnd (toLowerCase s) = toLowerCase (trimEnd s).
Proof.
  induction s as [|c s IH]; [done|].
  change (trimEnd (String (lower c) (toLowerCase s)) = toLowerCase (trimEnd (String c s))).
  simpl. rewrite IH. destruct (lower_cases c) as (_ & -> & _).
  destruct (trimEnd s); simpl; [by destruct (is_space c)|done].
Qed.

Lemma trim_toLowerCase (s : string) : trim (toLowerCase s) = toLowerCase (trim s).
Proof. unfold trim. by rewrite trimStart_toLowerCase, trimEnd_toLowerCase. Qed.

Lemma deriv_case_blind (r : regex) (c : ascii) :
  case_blind r -> case_blind (deriv c r) /\ deriv (lower c) r = deriv c r.
Proof.
  induction r as [| |p|r1 IH1 r2 IH2|r1 IH1 r2 IH2|r1 IH1]; simpl.
  - done.
  - done.
  - intros Hp. rewrite Hp. by destruct (p c).
  - intros [H1 H2]. destruct (IH1 H1) as [? ->], (IH2 H2) as [? ->].
    by destruct (nullable r1).
  - intros [H1 H2]. by destruct (IH1 H1) as [? ->], (IH2 H2) as [? ->].
  - intros H1. by destruct (IH1 H1) as [? ->].
Qed.

Lemma test_toLowerCase (s : string) (r : regex) :
  case_blind r -> test r (toLowerCase s) = test r s.
Proof.
  revert r. induction s as [|c s IH]; intros r Hr; [done|].
  change (test (deriv (lower c) r) (toLowerCase s) = test (deriv c r) s).
  destruct (deriv_case_blind r c Hr) as [Hd ->]. by apply IH.
Qed.

Lemma lit_i_case_blind (s : string) : case_blind (lit_i s).
Proof.
  induction s as [|c s IH]; [done|]. split; [|done].
  intros x. simpl. by destruct (lower_cases x) as [-> _].
Qed.

Lemma alts_case_blind (l : list string) : case_blind (alts l).
Proof.
  induction l as [|s l IH]; [done|]. split; [apply lit_i_case_blind|done].
Qed.

Lemma formattingPatterns_case_blind : Forall case_blind formattingPatterns.
Proof.
  assert (case_blind space) as Hspace.
  { split; intros c; by destruct (lower_cases c) as (_ & -> & _). }
  assert (case_blind word) as Hword.
  { split; intros c; by destruct (lower_cases c) as (_ & _ & ->). }
  unfold formattingPatterns.
  repeat (apply Forall_cons; split);
    repeat first [ apply Forall_nil_2 | exact Hspace | exact Hword
                 | apply lit_i_case_blind | apply alts_case_blind | split ].
Qed.

(** X10.  Two ASCII prompts that differ only in the case of their letters
    are treated alike: both are formatting requests or neither is, and the
    same fields are taken from both. *)
Theorem formatting_ignores_case (p q : string) :
  ascii_only p = true -> ascii_only q = true ->
  toLowerCase p = toLowerCase q ->
  isFormattingOnlyRequest p = isFormattingOnlyRequest q
  /\ extractExcludeFields p = extractExcludeFields q.
Proof.
  intros _ _ Hpq. split.
  - assert (forall s, isFormattingOnlyRequest s = isFormattingOnlyRequest (toLowerCase s))
      as Hlow.
    { intros s. unfold isFormattingOnlyRequest. rewrite trim_toLowerCase.
      pose proof formattingPatterns_case_blind as Hall.
      induction Hall as [|r rs Hr Hrs IH]; [done|]. simpl.
      by rewrite IH, test_toLowerCase. }
    by rewrite (Hlow p), (Hlow q), Hpq.
  - unfold extractExcludeFields. by rewrite Hpq.
Qed.

Lemma formatting_ignores_case_witness :
  ascii_only "Hide PID" = true /\ ascii_only "hide pid" = true
  /\ toLowerCase "Hide PID" = toLowerCase "hide pid"
  /\ isFormattingOnlyRequest "Hide PID" = isFormattingOnlyRequest "hide pid"
  /\ isFormattingOnlyRequest "hide pid" = true
  /\ extractExcludeFields "Hide PID" = ["pid"].
Proof.
  assert (toLowerCase "Hide PID" = toLowerCase "hide pid") as Hyp by reflexivity.
  split; [reflexivity|]. split; [reflexivity|]. split; [exact Hyp|].
  split; [|split; reflexivity].
  exact (proj1 (formatting_ignores_case "Hide PID" "hide pid" eq_refl eq_refl Hyp)).
Defined.

(** *** The fields to leave out *)

Lemma substring_app_prefix (a b s : string) (m : nat) :
  substring m (String.length (a +:+ b)) s = a +:+ b ->
  substring m (String.length a) s = a.
Proof.
  revert m a. induction s as [|c s IH]; intros m a.
  - destruct m, a as [|x a]; simpl; try done.
  - destruct m as [|m].
    + destruct a as [|x a]; [done|].
      change (String c (substring 0 (String.length (a +:+ b)) s) = String x (a +:+ b) ->
              String c (substring 0 (String.length a) s) = String x a).
      intros [= -> Hrest]. by rewrite (IH 0 a Hrest).
    + change (substring m (String.length (a +:+ b)) s = a +:+ b ->
              substring m (String.length a) s = a).
      apply IH.
Qed.

(** A string that includes [a] followed by [b] includes [a]. *)
Lemma includes_prefix (s a b : string) :
  includes s (a +:+ b) = true -> includes s a = true.
Proof.
  unfold includes. destruct a as [|x a]; [done|].
  change (String x a +:+ b) with (String x (a +:+ b)). cbv iota.
  intros [m Hm]%bool_decide_eq_true. apply bool_decide_eq_true.
  apply index_correct1 in Hm.
  change (String x (a +:+ b)) with (String x a +:+ b) in Hm.
  apply substring_app_prefix in Hm.
  destruct (index 0 (String x a) s) as [k|] eqn:Hindex; [eauto|].
  exfalso. by apply (index_correct3 0 m (String x a) s Hindex); [|lia|].
Qed.

(** X11.  The fields taken from a prompt are some of [pid],
    [memory_percent] and [memory_mb], in this order and each at most once;
    and because "without memory percent" contains "without memory" (and
    likewise for "hide"), a prompt that asks to leave out the memory
    percentage always leaves out the memory in megabytes as well. *)
Theorem excluded_fields (prompt : string) :
  extractExcludeFields prompt `sublist_of` ["pid"; "memory_percent"; "memory_mb"]
  /\ ("memory_percent" ∈ extractExcludeFields prompt ->
      "memory_mb" ∈ extractExcludeFields prompt).
Proof.
  unfold extractExcludeFields.
  set (p := toLowerCase prompt).
  assert (includes p "without memory percent" || includes p "hide memory percent" = true ->
          includes p "without memory" || includes p "hide memory" = true) as Himp.
  { intros [Hw|Hh]%orb_prop; apply orb_true_iff; [left|right].
    - by apply (includes_prefix p "without memory" " percent").
    - by apply (includes_prefix p "hide memory" " percent"). }
  destruct (includes p "without pid" || includes p "hide pid" || includes p "no pid");
    destruct (includes p "without memory percent" || includes p "hide memory percent");
    destruct (includes p "without memory" || includes p "hide memory");
    simpl; (split;
      [ repeat first [apply sublist_nil | apply sublist_skip | apply sublist_cons]
      | try (by specialize (Himp eq_refl)); intros Hin;
        repeat first [ apply list_elem_of_here | apply list_elem_of_further ];
        try (by apply elem_of_nil in Hin);
        try (by apply list_elem_of_singleton in Hin) ]).
Qed.

(** *** Deleting the fields *)

#[local] Arguments strip : simpl never.

Lemma strip_nil (o : object) : strip [] o = o.
Proof.
  destruct o as [elems|props]; unfold strip; [done|]. f_equal.
  induction props as [|kv props IH]; [done|].
  rewrite filter_cons, decide_True by apply not_elem_of_nil. by rewrite IH.
Qed.

Lemma strip_cons (key : string) (fields : list string) (o : object) :
  strip (key :: fields) o
  = strip fields (match o with
                  | OObj props => OObj (props_delete key props)
                  | OArr elems => OArr elems
                  end).
Proof.
  destruct o as [elems|props]; unfold strip; [done|]. f_equal.
  unfold props_delete. rewrite list_filter_filter.
  apply list_filter_iff. intros [k v]. simpl. rewrite not_elem_of_cons. tauto.
Qed.

Lemma strip_idemp (fields : list string) (o : object) :
  strip fields (strip fields o) = strip fields o.
Proof.
  destruct o as [elems|props]; unfold strip; [done|]. f_equal.
  by apply list_filter_filter_l.
Qed.

Lemma delete_fields_spec (fields : list string) (h : heap) (proc : value) :
  deletable proc \/ fields = [] ->
  (delete_fields h proc fields).1 = Normal ()
  /\ forall l, (delete_fields h proc fields).2 !! l
               = if bool_decide (proc = VRef l) then strip fields <$> h !! l else h !! l.
Proof.
  revert h. induction fields as [|key fields IH]; intros h Hok; simpl.
  { split; [done|]. intros l. case_bool_decide; [|done].
    destruct (h !! l) as [o|]; simpl; [|done]. by rewrite strip_nil. }
  destruct Hok as [[Hnull Hundef]|Hnil]; [|done].
  destruct proc as [| |b|n|s|l0]; try done; simpl.
  1-3: destruct (IH h (or_introl (conj Hnull Hundef))) as [Hn Hh]; split; [done|];
       intros l; specialize (Hh l); by rewrite bool_decide_eq_false_2 in * by done.
  destruct (h !! l0) as [[elems|props]|] eqn:Hl0; simpl.
  - destruct (IH h (or_introl (conj Hnull Hundef))) as [Hn Hh]. split; [done|].
    intros l. rewrite Hh. case_bool_decide as Heq; [|done].
    injection Heq as ->. rewrite Hl0. simpl. by rewrite strip_cons.
  - destruct (IH (<[l0 := OObj (props_delete key props)]> h)
                (or_introl (conj Hnull Hundef))) as [Hn Hh].
    split; [done|]. intros l. rewrite Hh. case_bool_decide as Heq.
    + injection Heq as ->. rewrite list_lookup_insert_eq by (by eapply lookup_lt_Some).
      rewrite Hl0. simpl. by rewrite strip_cons.
    + rewrite list_lookup_insert_ne by congruence. done.
  - destruct (IH h (or_introl (conj Hnull Hundef))) as [Hn Hh]. split; [done|].
    intros l. rewrite Hh. case_bool_decide as Heq; [|done].
    injection Heq as ->. by rewrite Hl0.
Qed.

Lemma delete_fields_throws (fields : list string) (h : heap) (proc : value) :
  ~ deletable proc -> fields <> [] ->
  exists m, delete_fields h proc fields = (Throw m, h).
Proof.
  intros Hproc Hfields. destruct fields as [|key fields]; [done|].
  destruct proc; simpl; eauto; destruct Hproc; by split.
Qed.

(** X12.  The loop that deletes the excluded fields ([pid],
    [memory_percent], [memory_mb]): unless a field is named and an element
    of the list is [null] or [undefined] -- then, and only then, it throws
    --, it leaves every object of the list without any of the named
    properties, its other properties as they were and in their order, and
    every object that is not in the list untouched. *)
Theorem forEach_proc_strips (fields : list string) (procs : list value) (h : heap) :
  Forall (fun field => field ∈ process_fields) fields ->
  ((forEach_proc h procs fields).1 = Normal ()
   <-> Forall deletable procs \/ fields = [])
  /\ (Forall deletable procs \/ fields = [] ->
      forall l, (forEach_proc h procs fields).2 !! l
                = if bool_decide (VRef l ∈ procs) then strip fields <$> h !! l else h !! l).
Proof.
  intros _. revert h. induction procs as [|proc procs IH]; intros h.
  { simpl. split; [split; [left; constructor|done]|]. by intros _ l. }
  destruct (decide (deletable proc \/ fields = [])) as [Hproc|Hproc].
  - destruct (delete_fields_spec fields h proc Hproc) as [Hn Hh].
    simpl. destruct (delete_fields h proc fields) as [[[]|m] h1]; simpl in *; [|done].
    destruct (IH h1) as [Hiff Hrest]. split.
    + rewrite Hiff. split.
      * intros [Hall|Hnil]; [|by right]. destruct Hproc as [Hproc|Hnil]; [|by right].
        left. by constructor.
      * intros [Hall|Hnil]; [|by right]. left. by inversion Hall.
    + intros Hall l.
      assert (Forall deletable procs \/ fields = []) as Hall'.
      { destruct Hall as [Hall|Hnil]; [|by right]. left. by inversion Hall. }
      rewrite (Hrest Hall' l), Hh.
      destruct (decide (proc = VRef l)) as [->|Hne].
      * rewrite (bool_decide_eq_true_2 (VRef l = VRef l)) by done.
        rewrite (bool_decide_eq_true_2 (VRef l ∈ VRef l :: procs))
          by apply list_elem_of_here.
        case_bool_decide; [|done].
        destruct (h !! l) as [o|]; simpl; [|done]. by rewrite strip_idemp.
      * rewrite (bool_decide_eq_false_2 (proc = VRef l)) by done.
        case_bool_decide as Hin.
        -- by rewrite (bool_decide_eq_true_2 (VRef l ∈ proc :: procs))
             by (by apply list_elem_of_further).
        -- rewrite (bool_decide_eq_false_2 (VRef l ∈ proc :: procs)); [done|].
           intros [Heq|Hin']%elem_of_cons; [by destruct Hne|done].
  - assert (~ deletable proc /\ fields <> []) as [Hnd Hne] by tauto.
    destruct (delete_fields_throws fields h proc Hnd Hne) as [m Hthrow].
    simpl. rewrite Hthrow. simpl. split.
    + split; [done|]. intros [Hall|Hnil]; [|done]. by inversion Hall.
    + intros [Hall|Hnil]; [|done]. by inversion Hall.
Qed.

Lemma forEach_proc_strips_witness :
  let h := [OObj [("pid", VNum 7); ("name", VStr "node")]; OObj [("pid", VNum 9)]] in
  Forall (fun field => field ∈ process_fields) ["pid"]
  /\ (forEach_proc h [VRef 0] ["pid"]).1 = Normal ()
  /\ (forEach_proc h [VRef 0] ["pid"]).2 !! 0 = Some (OObj [("name", VStr "node")])
  /\ (forEach_proc h [VRef 0] ["pid"]).2 !! 1 = Some (OObj [("pid", VNum 9)]).
Proof.
  intros h.
  assert (Forall (fun field => field ∈ process_fields) ["pid"]) as Hfields
    by (repeat constructor).
  assert (Forall deletable [VRef 0] \/ ["pid"] = []) as Hprocs
    by (left; repeat constructor; discriminate).
  pose proof (forEach_proc_strips ["pid"] [VRef 0] h Hfields) as [Hiff Hheap].
  split; [exact Hfields|]. split; [by apply Hiff|].
  split; [exact (Hheap Hprocs 0)|exact (Hheap Hprocs 1)].
Defined.

End FormatExtra.

(** ** More on the plan pipeline (renderer.js) *)

Module PipelineExtra.
Import Js Renderer Claims Observations.

(** *** What the side bar leaves alone *)

Lemma pipeline_vars_addMessage type title content data st :
  pipeline_vars (addMessage type title content data st) = pipeline_vars st.
Proof.
  destruct (PipelineFacts.addMessage_fields type title content data st)
    as (Hplan & Hproc & Hstop & Hlast & Hheap & Hinv & _).
  unfold pipeline_vars. by rewrite Hplan, Hproc, Hstop, Hlast, Hheap, Hinv.
Qed.

Lemma pipeline_vars_foldl (msgs : list Message) (st : State) :
  pipeline_vars (foldl (fun st msg =>
                          addMessageToDOM (m_type msg) (m_title msg) (m_content msg)
                            (m_data msg) st) st msgs)
  = pipeline_vars st.
Proof. revert st. induction msgs as [|m msgs IH]; intros st; simpl; [done|]. by rewrite IH. Qed.

Lemma pipeline_vars_loadConversation (conversationId : string) (st : State) :
  pipeline_vars (loadConversation conversationId st) = pipeline_vars st.
Proof.
  unfold loadConversation. destruct (find_conversation _ _) as [[i c]|]; [|done].
  by rewrite pipeline_vars_foldl.
Qed.

Lemma pipeline_vars_deleteConversation (conversationId fresh : string) (st : State) :
  pipeline_vars (deleteConversation conversationId fresh st) = pipeline_vars st.
Proof.
  unfold deleteConversation. destruct (find_conversation _ _) as [[i c]|]; [|done].
  simpl. case_bool_decide; [|done].
  destruct (delete i (conversations st)) as [|first rest]; [done|].
  unfold saveConversations.
  change (pipeline_vars (set_localStorage ?x ?s)) with (pipeline_vars s).
  by rewrite pipeline_vars_loadConversation.
Qed.

Lemma pipeline_vars_loadConversations (fresh : string) (st : State) :
  pipeline_vars (loadConversations fresh st) = pipeline_vars st.
Proof.
  unfold loadConversations.
  destruct (localStorage st) as [[|first rest]|]; simpl; try done.
  - by rewrite pipeline_vars_loadConversation.
  - destruct (conversations st) as [|first rest]; [done|].
    by rewrite pipeline_vars_loadConversation.
Qed.

Section facts.
Context `{Host} `{Layout}.

(** X13.  Making, selecting and deleting conversations and clearing the
    history never touch the plan, the two flags, the last result, the heap
    or the calls made: a plan that is running goes on, and the last result
    of one conversation still answers a formatting request typed in
    another. *)
Theorem side_bar_leaves_pipeline (st : State) (e : Event) :
  is_chat_event e = true -> pipeline_vars (step st e) = pipeline_vars st.
Proof.
  destruct e as [input| | | | |fresh|confirmed fresh|cid fresh|cid|n outcome| |outcome|
                 |outcome| |outcome|outcome]; try done; intros _; simpl.
  - by destruct confirmed.
  - apply pipeline_vars_deleteConversation.
  - case_bool_decide; [apply pipeline_vars_loadConversation|done].
Qed.

(** *** The stop flag *)

Lemma shouldStop_addMessage type title content data st :
  shouldStop (addMessage type title content data st) = shouldStop st.
Proof.
  pose proof (pipeline_vars_addMessage type title content data st) as Hv.
  unfold pipeline_vars in Hv. by injection Hv.
Qed.

Lemma shouldStop_loadConversation cid st :
  shouldStop (loadConversation cid st) = shouldStop st.
Proof.
  pose proof (pipeline_vars_loadConversation cid st) as Hv.
  unfold pipeline_vars in Hv. by injection Hv.
Qed.

Lemma shouldStop_step (st : State) (e : Event) :
  shouldStop st = false -> shouldStop (step st e) = false.
Proof.
  intros Hst.
  destruct e as [input| | | | |fresh|confirmed fresh|cid fresh|cid|n [result|m]| |outcome|
                 |outcome| |outcome|outcome]; simpl; try done.
  - unfold handleSubmit. repeat case_match; try done;
      rewrite ?shouldStop_addMessage; simpl; by rewrite ?shouldStop_addMessage.
  - by rewrite shouldStop_addMessage.
  - by destruct confirmed.
  - pose proof (pipeline_vars_deleteConversation cid fresh st) as Hv.
    unfold pipeline_vars in Hv. injection Hv as _ _ Hv _ _ _. by rewrite Hv.
  - case_bool_decide; [|done]. by rewrite shouldStop_loadConversation.
  - unfold handleSubmit_resolved. repeat case_match; try done.
    by rewrite shouldStop_addMessage.
  - unfold executeCurrentPlan_settled. repeat case_match; reflexivity.
  - unfold window_approvePlan. repeat case_match; try done. simpl.
    by rewrite shouldStop_addMessage.
  - unfold window_approvePlan_settled. repeat case_match; reflexivity.
  - unfold window_rejectPlan. by rewrite shouldStop_addMessage.
  - unfold handleHelp_settled. repeat case_match; try done; by rewrite shouldStop_addMessage.
Qed.

(** X14.  The stop flag is clear whenever a listener starts or a promise
    settles: [handleStop] sets it and ends in [setProcessing(false)], which
    clears it again, and nothing else sets it.  So the two tests of
    [shouldStop] after an [await] never find it set, and a reply that
    arrives after the stop button was pressed is shown like any other. *)
Theorem stop_flag_is_never_seen (stored : option (list Conversation)) (fresh : string)
    (events : list Event) :
  shouldStop (run (start stored fresh) events) = false.
Proof.
  unfold run.
  assert (shouldStop (start stored fresh) = false) as Hstart.
  { pose proof (pipeline_vars_loadConversations fresh (script_start stored)) as Hv.
    unfold pipeline_vars in Hv. injection Hv as _ _ Hv _ _ _. exact Hv. }
  revert Hstart. generalize (start stored fresh).
  induction events as [|e events IH]; intros st Hst; simpl; [done|].
  apply IH. by apply shouldStop_step.
Qed.

(** *** The heap only grows *)

Lemma receive_prefix (results : list WireResult) (h : heap) :
  h `prefix_of` (receive results h).2.
Proof.
  revert h. induction results as [|w results IH]; intros h; simpl; [done|].
  assert (h `prefix_of` (match w_output w with
                         | Some j => alloc j h
                         | None => (VUndefined, h)
                         end).2) as Hhead.
  { destruct (w_output w) as [j|]; [|done].
    destruct (ReformatFacts.alloc_allocates j h) as (ext & Hext & _).
    rewrite Hext. by apply prefix_app_r. }
  destruct (match w_output w with Some j => alloc j h | None => (VUndefined, h) end)
    as [v h1].
  specialize (IH h1). destruct (receive results h1) as [rs h2]. simpl in *.
  by etrans.
Qed.

Lemma reformatLastResult_prefix (h : heap) (last : option ExecResult)
    (fields : list string) (ref : value) :
  h `prefix_of` (reformatLastResult h last fields ref).2.
Proof.
  exists (drop (length h) (reformatLastResult h last fields ref).2).
  rewrite <- (ReformatFacts.reformatLastResult_frame h last fields ref) at 2.
  by rewrite take_drop.
Qed.

Lemma heap_of_addMessage type title content data st :
  heap_of (addMessage type title content data st) = heap_of st.
Proof.
  pose proof (pipeline_vars_addMessage type title content data st) as Hv.
  unfold pipeline_vars in Hv. by injection Hv.
Qed.

Lemma heap_of_step (st : State) (e : Event) :
  heap_of st `prefix_of` heap_of (step st e).
Proof.
  destruct e as [input| | | | |fresh|confirmed fresh|cid fresh|cid|n [result|m]| |outcome|
                 |outcome| |outcome|outcome]; simpl; try done.
  - unfold handleSubmit. case_match; [done|].
    set (st1 := addMessage "user" "You" (trim input) None st).
    assert (heap_of st1 = heap_of st) as Hst1 by apply heap_of_addMessage.
    cbv zeta. case_match; [|by rewrite <- Hst1].
    case_match; [|simpl; rewrite Hst1; by apply prefix_app_r].
    change (heap_of (set_heap ?h st1)) with h.
    change (lastResult (set_heap ?h st1)) with (lastResult st1).
    pose proof (reformatLastResult_prefix (heap_of st1 ++ [OArr (map VStr
                  (extractExcludeFields (trim input)))]) (lastResult st1)
                  (extractExcludeFields (trim input)) (VRef (length (heap_of st1)))) as Hpre.
    assert (heap_of st `prefix_of`
            (reformatLastResult (heap_of st1 ++ [OArr (map VStr
                  (extractExcludeFields (trim input)))]) (lastResult st1)
                  (extractExcludeFields (trim input)) (VRef (length (heap_of st1)))).2) as Hall.
    { etrans; [|exact Hpre]. rewrite Hst1. by apply prefix_app_r. }
    destruct (reformatLastResult _ _ _ _) as [[v|m] h2]; simpl in *; [|done].
    case_match; [by rewrite heap_of_addMessage|done].
  - unfold handleStop. simpl. by rewrite heap_of_addMessage.
  - unfold handleViewLogs. simpl. by rewrite heap_of_addMessage.
  - by destruct confirmed.
  - pose proof (pipeline_vars_deleteConversation cid fresh st) as Hv.
    unfold pipeline_vars in Hv. injection Hv as _ _ _ _ Hv _. by rewrite Hv.
  - case_bool_decide; [|done].
    pose proof (pipeline_vars_loadConversation cid st) as Hv.
    unfold pipeline_vars in Hv. injection Hv as _ _ _ _ Hv _. by rewrite Hv.
  - unfold handleSubmit_resolved. repeat case_match; simpl; by rewrite ?heap_of_addMessage.
  - unfold handleSubmit_rejected. simpl. by rewrite heap_of_addMessage.
  - unfold executeCurrentPlan_settled. destruct outcome as [result|m].
    + pose proof (receive_prefix (e_results result) (heap_of st)) as Hpre.
      destruct (receive (e_results result) (heap_of st)) as [results h]. simpl in Hpre.
      repeat case_match; simpl; by rewrite ?heap_of_addMessage.
    + simpl. by rewrite heap_of_addMessage.
  - unfold window_approvePlan. case_match; [done|]. simpl. by rewrite heap_of_addMessage.
  - unfold window_approvePlan_settled. destruct outcome as [result|m].
    + pose proof (receive_prefix (e_results result) (heap_of st)) as Hpre.
      destruct (receive (e_results result) (heap_of st)) as [results h]. simpl in Hpre.
      repeat case_match; simpl; by rewrite ?heap_of_addMessage.
    + simpl. by rewrite heap_of_addMessage.
  - unfold window_rejectPlan. by rewrite heap_of_addMessage.
  - unfold handleHelp_settled. repeat case_match; by rewrite ?heap_of_addMessage.
  - unfold handleViewLogs_settled. simpl. repeat case_match; by rewrite ?heap_of_addMessage.
Qed.

(** X15.  Whatever happens in the window, an object of the heap is never
    changed once it exists: every event leaves the heap it found as a
    prefix of the heap it leaves.  The outputs of earlier replies, the
    stored last result among them, stay as they were received. *)
Theorem heap_only_grows (st : State) (events : list Event) :
  heap_of st `prefix_of` heap_of (run st events).
Proof.
  unfold run. revert st. induction events as [|e events IH]; intros st; simpl; [done|].
  etrans; [apply heap_of_step|apply IH].
Qed.

(** *** The last result *)

Lemma stored_after_cons (r : ExecResult) (results : list ExecResult)
    (before : option ExecResult) :
  stored_after (r :: results) before
  = stored_after results (if storable r then Some r else before).
Proof.
  unfold stored_after. rewrite filter_cons.
  destruct (storable r) eqn:Hr.
  - rewrite decide_True by done. rewrite last_cons. by destruct (last _).
  - by rewrite decide_False by done.
Qed.

Lemma forEach_result_last (h : heap) (totalCount : nat) (results : list ExecResult)
    (index : nat) (before : option ExecResult) (outputText errorText : string) :
  (forEach_result h totalCount index results (before, outputText, errorText)).1.1
  = stored_after results before.
Proof.
  revert index before outputText errorText.
  induction results as [|r results IH]; intros index before outputText errorText; [done|].
  rewrite stored_after_cons. simpl. unfold forEach_body, storable.
  destruct (bool_decide (status r = "success") && truthy_value (output r)); simpl.
  - by rewrite IH.
  - destruct (bool_decide (status r = "error") && has_error r); by rewrite IH.
Qed.

Lemma lastResult_addMessage type title content data st :
  lastResult (addMessage type title content data st) = lastResult st.
Proof.
  pose proof (pipeline_vars_addMessage type title content data st) as Hv.
  unfold pipeline_vars in Hv. by injection Hv.
Qed.


(** *** What is sent with a prompt *)

Lemma conversationHistory_addMessage type title content data st :
  conversationHistory (addMessage type title content data st)
  = match find_conversation (currentConversationId st) (conversations st) with
    | Some _ => conversationHistory st
                ++ [{| m_type := type; m_title := title; m_content := content;
                       m_data := data |}]
    | None => []
    end.
Proof.
  unfold conversationHistory.
  rewrite ConversationExtra.addMessage_currentConversationId.
  destruct (find_conversation (currentConversationId st) (conversations st))
    as [[i c]|] eqn:Hfind.
  - rewrite (ConversationExtra.addMessage_insert _ _ _ _ _ i c Hfind).
    by rewrite (ConversationExtra.find_conversation_insert _ _ i c
                  (with_message type title content data c) Hfind eq_refl).
  - assert (conversations (addMessage type title content data st) = conversations st) as ->.
    { unfold addMessage, saveMessageToConversation.
      change (currentConversationId (addMessageToDOM type title content data st))
        with (currentConversationId st).
      change (conversations (addMessageToDOM type title content data st))
        with (conversations st).
      by rewrite Hfind. }
    by rewrite Hfind.
Qed.

Lemma submit_to_backend_call (prompt : string) (st : State) :
  invoked (submit_to_backend prompt st)
  = invoked st ++ [submitPrompt prompt (conversationHistory st)]
  /\ isProcessing (submit_to_backend prompt st) = true.
Proof. done. Qed.

Lemma invoked_addMessage type title content data st :
  invoked (addMessage type title content data st) = invoked st.
Proof.
  pose proof (pipeline_vars_addMessage type title content data st) as Hv.
  unfold pipeline_vars in Hv. by injection Hv.
Qed.


End facts.

Section examples.
#[local] Existing Instance Sample.host.
#[local] Existing Instance Sample.layout.

Lemma side_bar_leaves_pipeline_witness :
  let plan := [Sample.step_of "open_folder"] in
  let st := set_flags true false (set_currentPlan (Some plan) (start None "c1")) in
  is_chat_event (NewChatClick "c2") = true
  /\ pipeline_vars (step st (NewChatClick "c2")) = (Some plan, true, false, None, [], []).
Proof.
  intros plan st. split; [reflexivity|].
  exact (side_bar_leaves_pipeline st (NewChatClick "c2") eq_refl).
Defined.

End examples.

(** *** What a plan shows of its arguments *)

Lemma string_length_substring_full (n : nat) (s : string) :
  n <= String.length s -> String.length (substring 0 n s) = n.
Proof.
  revert s. induction n as [|n IH]; intros [|c s] Hn; simpl in *; try done; try lia.
  rewrite IH; [done|lia].
Qed.


End PipelineExtra.

(** ** The deep copy of an output (renderer.js) *)

Module CopyExtra.
Import Js Renderer Claims.

Lemma props_set_map {A B : Type} (f : A -> B) (key : string) (v : A)
    (props : list (string * A)) :
  map (fun kv => (kv.1, f kv.2)) (props_set key v props)
  = props_set key (f v) (map (fun kv => (kv.1, f kv.2)) props).
Proof.
  induction props as [|[k w] rest IH]; simpl; [done|].
  case_bool_decide; simpl; [done|]. by rewrite IH.
Qed.

Lemma foldl_props_set_map {A B : Type} (f : A -> B) (l acc : list (string * A)) :
  map (fun kv => (kv.1, f kv.2)) (foldl (fun acc kv => props_set kv.1 kv.2 acc) acc l)
  = foldl (fun acc kv => props_set kv.1 kv.2 acc) (map (fun kv => (kv.1, f kv.2)) acc)
      (map (fun kv => (kv.1, f kv.2)) l).
Proof.
  revert acc. induction l as [|[k v] l IH]; intros acc; simpl; [done|].
  by rewrite IH, props_set_map.
Qed.

Lemma props_set_new {A : Type} (key : string) (v : A) (props : list (string * A)) :
  key ∉ map fst props -> props_set key v props = props ++ [(key, v)].
Proof.
  induction props as [|[k w] rest IH]; simpl; [done|].
  intros [Hk Hrest]%not_elem_of_cons.
  rewrite bool_decide_eq_false_2 by done. by rewrite IH.
Qed.

Lemma props_set_keys {A : Type} (key : string) (v : A) (props : list (string * A)) :
  map fst (props_set key v props)
  = if bool_decide (key ∈ map fst props) then map fst props else map fst props ++ [key].
Proof.
  induction props as [|[k w] rest IH]; simpl; [done|].
  destruct (decide (k = key)) as [->|Hk].
  - rewrite (bool_decide_eq_true_2 (key = key)) by done.
    by rewrite bool_decide_eq_true_2 by apply list_elem_of_here.
  - rewrite (bool_decide_eq_false_2 (k = key)) by done. simpl. rewrite IH.
    destruct (decide (key ∈ map fst rest)) as [Hin|Hin].
    + rewrite (bool_decide_eq_true_2 (key ∈ map fst rest)) by done.
      by rewrite bool_decide_eq_true_2 by (by apply list_elem_of_further).
    + rewrite (bool_decide_eq_false_2 (key ∈ map fst rest)) by done.
      rewrite bool_decide_eq_false_2; [done|].
      intros [Heq|Hin']%elem_of_cons; [by destruct Hk|done].
Qed.

Lemma foldl_props_set_NoDup {A : Type} (l acc : list (string * A)) :
  NoDup (map fst acc) ->
  NoDup (map fst (foldl (fun acc kv => props_set kv.1 kv.2 acc) acc l)).
Proof.
  revert acc. induction l as [|[k v] l IH]; intros acc Hacc; simpl; [done|].
  apply IH. rewrite props_set_keys. case_bool_decide as Hin; [done|].
  apply NoDup_app. split_and!; [done| |apply NoDup_singleton].
  intros x Hx ->%list_elem_of_singleton. done.
Qed.

Lemma foldl_props_set_distinct {A : Type} (l acc : list (string * A)) :
  NoDup (map fst (acc ++ l)) ->
  foldl (fun acc kv => props_set kv.1 kv.2 acc) acc l = acc ++ l.
Proof.
  revert acc. induction l as [|[k v] l IH]; intros acc Hnd; simpl.
  { by rewrite app_nil_r. }
  rewrite props_set_new.
  - rewrite IH; rewrite <- app_assoc; done.
  - rewrite map_app in Hnd. apply NoDup_app in Hnd as (_ & Hdisj & _).
    intros Hin. apply (Hdisj k Hin). simpl. apply list_elem_of_here.
Qed.

(** Resolving repeated member names a second time changes nothing. *)
Lemma canon_idemp (j : json) : canon (canon j) = canon j.
Proof.
  induction j as [| | | |elems IH|members IH] using json_nested_ind; try done.
  - simpl. f_equal. rewrite map_map. apply map_ext_Forall. exact IH.
  - simpl. f_equal.
    rewrite (foldl_props_set_map canon). simpl. rewrite map_map. simpl.
    assert (map (fun kv : string * json => (kv.1, canon (canon kv.2))) members
            = map (fun kv => (kv.1, canon kv.2)) members) as ->.
    { apply map_ext_Forall. eapply Forall_impl; [exact IH|].
      intros [k x] Hx. simpl in *. by rewrite Hx. }
    apply (foldl_props_set_distinct _ []). simpl.
    apply foldl_props_set_NoDup. constructor.
Qed.

(** X19.  [JSON.parse(JSON.stringify(output))] on an output that came with
    a reply is a deep copy: it does not throw, however many objects the
    heap has gained since; the copy is made of new objects only, none of
    which refers to an object that existed before; and it prints as the
    same JSON text as the original. *)
Theorem clone_is_a_deep_copy (j : json) (h ext : heap) :
  let v := (alloc j h).1 in
  let h' := (alloc j h).2 ++ ext in
  exists v' ext',
    clone h' v = (Normal v', h' ++ ext')
    /\ fresh_value (length h') v'
    /\ Forall (fresh_object (length h')) ext'
    /\ serialize (S (length (h' ++ ext'))) (h' ++ ext') v'
       = serialize (S (length h')) h' v.
Proof.
  intros v h'.
  destruct (ReformatFacts.alloc_allocates (canon j) h') as (ext' & Hext & Hv & Hfresh).
  exists (alloc (canon j) h').1, ext'. split_and!; try done.
  - subst v h'. rewrite CloneFacts.clone_of_received. by rewrite <- Hext.
  - pose proof (CloneFacts.alloc_serializes_back j h ext (S (length h'))) as Horig.
    pose proof (CloneFacts.alloc_serializes_back (canon j) h' [] (S (length (h' ++ ext'))))
      as Hcopy.
    rewrite app_nil_r, canon_idemp in Hcopy.
    pose proof (CloneFacts.alloc_nests_in_heap j h) as Hdeep.
    pose proof (CloneFacts.alloc_nests_in_heap (canon j) h') as Hdeep'.
    rewrite Hext in Hcopy, Hdeep'.
    subst v. fold h' in Horig. rewrite Hcopy, Horig; [done| |].
    + subst h'. rewrite length_app. lia.
    + lia.
Qed.

End CopyExtra.

(** ** What is kept of the conversations (renderer.js) *)

Module KeepExtra.
Import Js Renderer Claims Observations.

Lemma continues_refl (c : Conversation) : continues c c.
Proof. by split. Qed.

Lemma continues_trans (c1 c2 c3 : Conversation) :
  continues c1 c2 -> continues c2 c3 -> continues c1 c3.
Proof. intros [Hid1 Hm1] [Hid2 Hm2]. split; [congruence|by etrans]. Qed.

Lemma continues_all (l : list Conversation) : Forall2 continues l l.
Proof.
  apply Forall2_same_length_lookup. split; [done|].
  intros i c c' Hc Hc'. simplify_eq. apply continues_refl.
Qed.

Lemma keeps_refl (l : list Conversation) : keeps l l.
Proof. exists [], l. split; [done|apply continues_all]. Qed.

Lemma keeps_trans (l1 l2 l3 : list Conversation) : keeps l1 l2 -> keeps l2 l3 -> keeps l1 l3.
Proof.
  intros (a1 & r1 & -> & H1) (a2 & r2 & -> & H2).
  apply Forall2_app_inv_l in H2 as (r2a & r2b & Ha & Hb & ->).
  exists (a2 ++ r2a), r2b. split; [by rewrite app_assoc|].
  clear Ha. revert r2b Hb. induction H1 as [|c c' l r Hc Hrest IH]; intros r2b Hb.
  - inversion Hb. constructor.
  - inversion Hb as [|c2 c3 r' r3 Hc' Hrest' E1 E2]; subst.
    constructor; [by eapply continues_trans|by apply IH].
Qed.

Lemma keeps_insert (l : list Conversation) (i : nat) (c c' : Conversation) :
  l !! i = Some c -> continues c c' -> keeps l (<[i := c']> l).
Proof.
  intros Hi Hc. exists [], (<[i := c']> l). split; [done|].
  apply Forall2_same_length_lookup. split; [by rewrite length_insert|].
  intros j x y Hx Hy. destruct (decide (i = j)) as [->|Hne].
  - rewrite list_lookup_insert_eq in Hy by (by eapply lookup_lt_Some). by simplify_eq.
  - rewrite list_lookup_insert_ne in Hy by done. simplify_eq. apply continues_refl.
Qed.

Lemma keeps_addMessage type title content data st :
  keeps (conversations st) (conversations (addMessage type title content data st)).
Proof.
  destruct (find_conversation (currentConversationId st) (conversations st))
    as [[i c]|] eqn:Hfind.
  - rewrite (ConversationExtra.addMessage_insert _ _ _ _ _ i c Hfind).
    pose proof Hfind as [Hl _]%ConversationFacts.find_conversation_Some.
    apply (keeps_insert _ i c); [done|]. split; [done|]. by apply prefix_app_r.
  - assert (conversations (addMessage type title content data st) = conversations st) as ->.
    { unfold addMessage, saveMessageToConversation.
      change (currentConversationId (addMessageToDOM type title content data st))
        with (currentConversationId st).
      change (conversations (addMessageToDOM type title content data st))
        with (conversations st).
      by rewrite Hfind. }
    apply keeps_refl.
Qed.

(** The conversations of [st'] keep those of the state [l] was taken
    from. *)
Lemma kept_addMessage l type title content data st :
  keeps l (conversations st) -> keeps l (conversations (addMessage type title content data st)).
Proof. intros Hst. eapply keeps_trans; [exact Hst|apply keeps_addMessage]. Qed.

Lemma kept_set_flags l a b st :
  keeps l (conversations st) -> keeps l (conversations (set_flags a b st)).
Proof. done. Qed.
Lemma kept_setProcessing l b st :
  keeps l (conversations st) -> keeps l (conversations (setProcessing b st)).
Proof. done. Qed.
Lemma kept_finally l st : keeps l (conversations st) -> keeps l (conversations (finally st)).
Proof. done. Qed.
Lemma kept_set_heap l h st :
  keeps l (conversations st) -> keeps l (conversations (set_heap h st)).
Proof. done. Qed.
Lemma kept_set_lastResult l r st :
  keeps l (conversations st) -> keeps l (conversations (set_lastResult r st)).
Proof. done. Qed.
Lemma kept_set_currentPlan l p st :
  keeps l (conversations st) -> keeps l (conversations (set_currentPlan p st)).
Proof. done. Qed.
Lemma kept_set_outputArea l a st :
  keeps l (conversations st) -> keeps l (conversations (set_outputArea a st)).
Proof. done. Qed.
Lemma kept_invoke l c st : keeps l (conversations st) -> keeps l (conversations (invoke c st)).
Proof. done. Qed.
Lemma kept_removeThinkingIndicator l n st :
  keeps l (conversations st) -> keeps l (conversations (removeThinkingIndicator n st)).
Proof. done. Qed.
Lemma kept_submit_to_backend l prompt st :
  keeps l (conversations st) -> keeps l (conversations (submit_to_backend prompt st)).
Proof. done. Qed.

Create HintDb kept.
#[local] Hint Resolve keeps_refl kept_addMessage kept_set_flags kept_setProcessing kept_finally
  kept_set_heap kept_set_lastResult kept_set_currentPlan kept_set_outputArea kept_invoke
  kept_removeThinkingIndicator kept_submit_to_backend : kept.

Ltac keeps_conversations := repeat case_match; eauto 12 with kept.

Section facts.
Context `{Host} `{Layout}.

Lemma keeps_step (st : State) (e : Event) :
  is_removal e = false -> keeps (conversations st) (conversations (step st e)).
Proof.
  intros He.
  destruct e as [input| | | | |fresh|confirmed fresh|cid fresh|cid|n [result|m]| |outcome|
                 |outcome| |outcome|outcome]; simpl in *; try done.
  - unfold handleSubmit. keeps_conversations.
  - unfold handleStop. keeps_conversations.
  - apply keeps_refl.
  - apply keeps_refl.
  - unfold handleViewLogs. keeps_conversations.
  - exists [{| id := fresh; title := "New Chat"; messages := [] |}], (conversations st).
    split; [done|]. apply continues_all.
  - subst confirmed. apply keeps_refl.
  - case_bool_decide; [|apply keeps_refl].
    destruct (ConversationExtra.loadConversation_store cid st) as [-> _]. apply keeps_refl.
  - unfold handleSubmit_resolved. keeps_conversations.
  - unfold handleSubmit_rejected. keeps_conversations.
  - apply keeps_refl.
  - unfold executeCurrentPlan_settled. keeps_conversations.
  - unfold window_approvePlan. keeps_conversations.
  - unfold window_approvePlan_settled. keeps_conversations.
  - unfold window_rejectPlan. keeps_conversations.
  - unfold handleHelp_settled. keeps_conversations.
  - unfold handleViewLogs_settled. keeps_conversations.
Qed.

(** X20.  Unless the user deletes a conversation or clears the history,
    nothing the window does loses or alters a message: after any such
    sequence of events every conversation is still there under its
    identifier, with the messages it had, in their order, followed by the
    new ones; the conversations are in the order they were in, behind the
    conversations made since. *)
Theorem messages_are_kept (st : State) (events : list Event) :
  Forall (fun e => is_removal e = false) events ->
  keeps (conversations st) (conversations (run st events)).
Proof.
  unfold run. intros Hall. revert st.
  induction Hall as [|e events He Hrest IH]; intros st; simpl; [apply keeps_refl|].
  eapply keeps_trans; [by apply keeps_step|apply IH].
Qed.

End facts.

Section examples.
#[local] Existing Instance Sample.host.
#[local] Existing Instance Sample.layout.

Lemma messages_are_kept_witness :
  let events := [SendClick "tidy up"; StopClick; NewChatClick "c2"; ClearClick] in
  Forall (fun e => is_removal e = false) events
  /\ keeps (conversations (start None "c1")) (conversations (run (start None "c1") events)).
Proof.
  intros events.
  assert (Forall (fun e => is_removal e = false) events) as Hall by (by repeat constructor).
  split; [exact Hall|]. exact (messages_are_kept (start None "c1") events Hall).
Defined.

End examples.

End KeepExtra.

(** ** The calls of the window (renderer.js, preload.js) *)

Module CallExtra.
Import Js Renderer Claims Observations.

Section facts.
Context `{Host} `{Layout}.

Lemma invoked_loadConversation cid st :
  invoked (loadConversation cid st) = invoked st.
Proof.
  pose proof (PipelineExtra.pipeline_vars_loadConversation cid st) as Hv.
  unfold pipeline_vars in Hv. by injection Hv.
Qed.

Lemma invoked_step (st : State) (e : Event) :
  exists calls, invoked (step st e) = invoked st ++ calls
    /\ length calls <= (if may_call e then 1 else 0)
    /\ Forall (fun c => channel c ∈ channels_of e) calls.
Proof.
  assert (forall s : State, invoked s = invoked st ->
            exists calls, invoked s = invoked st ++ calls
              /\ length calls <= (if may_call e then 1 else 0)
              /\ Forall (fun c => channel c ∈ channels_of e) calls) as Hnone.
  { intros s Hs. exists []. rewrite app_nil_r. split_and!; [done|simpl; lia|constructor]. }
  destruct e as [input| | | | |fresh|confirmed fresh|cid fresh|cid|n [result|m]| |outcome|
                 |outcome| |outcome|outcome]; simpl.
  - assert (forall s : State, invoked s = invoked st ->
              exists calls,
                invoked (submit_to_backend (trim input) s) = invoked st ++ calls
                /\ length calls <= 1
                /\ Forall (fun c => channel c ∈ ["submit-prompt"]) calls) as Hsend.
    { intros s Hs. eexists. split; [|split].
      - rewrite (proj1 (PipelineExtra.submit_to_backend_call (trim input) s)), Hs. done.
      - simpl. lia.
      - repeat constructor. }
    unfold handleSubmit. destruct (bool_decide (trim input = "") || isProcessing st);
      [by apply Hnone|].
    set (st1 := addMessage "user" "You" (trim input) None st).
    assert (invoked st1 = invoked st) as Hinv1 by apply PipelineExtra.invoked_addMessage.
    cbv zeta.
    destruct (isFormattingOnlyRequest (trim input) && bool_decide (is_Some (lastResult st1)));
      [|by apply Hsend].
    destruct (bool_decide (0 < length (extractExcludeFields (trim input))));
      [|by apply Hsend].
    destruct (reformatLastResult _ _ _ _) as [[v|m] h2]; [|by apply Hnone].
    destruct (truthy_value v); [|by apply Hsend].
    apply Hnone. by rewrite PipelineExtra.invoked_addMessage.
  - apply Hnone. apply StopFacts.handleStop_invoked.
  - by apply Hnone.
  - exists [getHelp]. split_and!; [done|simpl; lia|repeat constructor].
  - exists [viewLogs 10]. unfold handleViewLogs. simpl.
    rewrite PipelineExtra.invoked_addMessage. split_and!; [done|simpl; lia|repeat constructor].
  - by apply Hnone.
  - apply Hnone. by destruct confirmed.
  - apply Hnone.
    pose proof (PipelineExtra.pipeline_vars_deleteConversation cid fresh st) as Hv.
    unfold pipeline_vars in Hv. by injection Hv.
  - apply Hnone. case_bool_decide; [apply invoked_loadConversation|done].
  - apply Hnone. unfold handleSubmit_resolved.
    repeat case_match; simpl; by rewrite ?PipelineExtra.invoked_addMessage.
  - apply Hnone. unfold handleSubmit_rejected. simpl.
    by rewrite PipelineExtra.invoked_addMessage.
  - exists [approvePlan (currentPlan st)]. split_and!; [done|simpl; lia|repeat constructor].
  - apply Hnone. unfold executeCurrentPlan_settled.
    repeat case_match; simpl; by rewrite ?PipelineExtra.invoked_addMessage.
  - unfold window_approvePlan.
    destruct (negb (bool_decide (is_Some (currentPlan st))) || isProcessing st);
      [by apply Hnone|].
    exists [approvePlan (currentPlan st)]. simpl. rewrite PipelineExtra.invoked_addMessage.
    split_and!; [done|simpl; lia|repeat constructor].
  - apply Hnone. unfold window_approvePlan_settled.
    repeat case_match; simpl; by rewrite ?PipelineExtra.invoked_addMessage.
  - apply Hnone. unfold window_rejectPlan. by rewrite PipelineExtra.invoked_addMessage.
  - apply Hnone. unfold handleHelp_settled.
    repeat case_match; by rewrite ?PipelineExtra.invoked_addMessage.
  - apply Hnone. unfold handleViewLogs_settled. simpl.
    repeat case_match; by rewrite ?PipelineExtra.invoked_addMessage.
Qed.

(** X21.  The window calls the main process only from a click on Send,
    Help or View Logs, after the pause that precedes an execution, and from
    [window.approvePlan()], at most once each time and on the channel of
    that event; a reply, whatever it holds, never makes the window call,
    nor does any other button or the side bar.  Calls once made stay on
    record, in order. *)
Theorem calls_come_from_requests (st : State) (events : list Event) :
  exists calls,
    invoked (run st events) = invoked st ++ calls
    /\ length calls <= length (filter (fun e => may_call e = true) events)
    /\ Forall (fun c => exists e, e ∈ events /\ channel c ∈ channels_of e) calls.
Proof.
  unfold run. revert st. induction events as [|e events IH]; intros st; simpl.
  { exists []. rewrite app_nil_r. split_and!; [done|simpl; lia|constructor]. }
  destruct (invoked_step st e) as (c1 & Hc1 & Hlen1 & Hch1).
  destruct (IH (step st e)) as (c2 & Hc2 & Hlen2 & Hch2).
  exists (c1 ++ c2). split_and!.
  - by rewrite Hc2, Hc1, app_assoc.
  - rewrite length_app, filter_cons. destruct (may_call e); simpl in *; lia.
  - apply Forall_app. split.
    + eapply Forall_impl; [exact Hch1|]. intros c Hc. exists e. split; [apply list_elem_of_here|done].
    + eapply Forall_impl; [exact Hch2|]. intros c (e' & He' & Hc). exists e'.
      split; [by apply list_elem_of_further|done].
Qed.

End facts.

End CallExtra.

(** ** Worked examples *)

Module Examples.
Import Js Main Renderer Claims.

Section examples.
#[local] Existing Instance Sample.host.
#[local] Existing Instance Sample.layout.

(** On Windows, a probe that exits with 0 and reports an administrator
    resolves to [true]; the window title says so. *)
Example probe_reports_admin :
  let probe := {| code := Some 0%Z; dataString := Sample.probe_says "true";
                  errorString := "" |} in
  checkAdminStatus "win32" probe = Resolved (JBool true)
  /\ mainWindow (whenReady "win32" probe)
     = Some "Desktop Automation Agent [ADMINISTRATOR]"
  /\ checkAdminStatus "linux" probe = Resolved (JBool false).
Proof. by split_and!. Qed.

(** The ['view-logs'] handler asks for ten records when called without a
    limit, and for the given number otherwise. *)
Example view_logs_command_line :
  Main.args (getPythonLogs_spawn (limit_or_default None)) = ["--get-logs"; "10"]
  /\ Main.args (getPythonLogs_spawn (limit_or_default (Some 3%Z))) = ["--get-logs"; "3"].
Proof. by split. Qed.

(** The formatting patterns. *)
Example formatting_requests :
  isFormattingOnlyRequest "without pid" = true
  /\ isFormattingOnlyRequest "  Show output   hide memory " = true
  /\ isFormattingOnlyRequest "don't show pid" = true
  /\ isFormattingOnlyRequest "show me the processes without pid" = false
  /\ extractExcludeFields "Hide Memory Percent" = ["memory_percent"; "memory_mb"]
  /\ extractExcludeFields "hide cpu" = [].
Proof. by split_and!. Qed.

(** Deleting the field in place, without the copy, would have changed the
    stored process list. *)
Example delete_in_place_changes_the_store :
  let h := [OObj [("name", VStr "chrome"); ("pid", VNum 41)]; OArr [VRef 0]] in
  (forEach_proc h [VRef 0] ["pid"]).2 = [OObj [("name", VStr "chrome")]; OArr [VRef 0]].
Proof. reflexivity. Qed.

(** Pressing stop sets the flag and, through [setProcessing(false)],
    clears it again before the handler returns. *)
Example stop_leaves_the_flag_clear :
  let st := run (start None "c1") [SendClick "tidy up"; StopClick] in
  shouldStop st = false /\ isProcessing st = false
  /\ map channel (invoked st) = ["submit-prompt"].
Proof. by split_and!. Qed.

(** A chat answer is shown and not executed. *)
Example chat_is_not_executed :
  let hello := {| action := "chat"; args := [("message", JStr "Hi there")];
                  risk_level := None; description := None |} in
  let reply := {| p_success := true; p_plan := Some [hello]; p_error := None |} in
  let st := run (start None "c1") [SendClick "hello"; PlannerSettled 1 (Resolved reply)] in
  auto_executes reply (start None "c1") = false
  /\ (m_content <$> last_message st) = Some "Hi there"
  /\ isProcessing st = false.
Proof. by split_and!. Qed.

End examples.
End Examples.
